(** * get-pwned-bozo: the animated banner served over SSH

    A shallow embedding of [main.go]: the Bubble Tea model ([model],
    [Update], [View]) and the rainbow renderer ([lolcat]).

    The program is glue around four libraries.  Each of them is an
    interface here (a type class named after the Go package), so that the
    results on [Update], [View] and [lolcat] hold for every implementation
    of the libraries.  Go's own string/rune conversions are modelled in
    full (module [utf8]).  What the results say about hues is stated on
    the colour type of the specification (module [hsv]), an HSV triple
    whose hue turns modulo 360. *)

From Stdlib Require Import ZArith NArith QArith Qabs Qround Bool List Lia.
From Stdlib Require Import Ascii String DecimalString Sorted Lqa ZifyBool.
Import ListNotations.

Local Open Scope string_scope.
Local Open Scope Z_scope.

(** ** Go base types *)

(** [int] and [uint] are only stored and copied by the code under study:
    no arithmetic is done on them, so no wrap-around is written out. *)
Definition int := Z.
Definition uint := N.

(** [float64].  Only the constants 40.0 and 6.0 occur, both handed to the
    colour library; degrees are exact rationals here. *)
Definition float64 := Q.

(** A [rune] is an [int32] holding a Unicode code point. *)
Definition rune := Z.

(** A Go [string] is a sequence of bytes: Rocq's [string] of 8-bit
    characters. *)
Definition byte_val (a : ascii) : Z := Z.of_N (N_of_ascii a).
Definition to_byte (z : Z) : ascii := ascii_of_N (Z.to_N (z mod 256)).

(** The string ["\n"]. *)
Definition newline : string := String (ascii_of_nat 10) EmptyString.

(** Outcome of a Go call that may panic at run time. *)
Inductive panic : Type :=
| interface_conversion   (* failed type assertion [x.(T)] *)
| nil_dereference.       (* field read through a nil pointer *)

Inductive outcome (A : Type) : Type :=
| Returns (a : A)
| Panics (p : panic).
Arguments Returns {A} a.
Arguments Panics {A} p.

(** ** Strings and runes: [[]rune(s)], [string(r)], [WriteRune] *)

Module utf8.

Definition runeError : rune := 0xFFFD.
Definition runeSelf : Z := 0x80.
Definition maxRune : rune := 0x10FFFF.
Definition surrogateMin : Z := 0xD800.
Definition surrogateMax : Z := 0xDFFF.

Definition tx : Z := 0x80.
Definition t2 : Z := 0xC0.
Definition t3 : Z := 0xE0.
Definition t4 : Z := 0xF0.
Definition t5 : Z := 0xF8.

Definition maskx : Z := 0x3F.
Definition mask2 : Z := 0x1F.
Definition mask3 : Z := 0x0F.
Definition mask4 : Z := 0x07.

Definition rune1Max : Z := 0x7F.
Definition rune2Max : Z := 0x7FF.
Definition rune3Max : Z := 0xFFFF.

Definition locb : Z := 0x80.
Definition hicb : Z := 0xBF.

(** A continuation byte. *)
Definition cont (b : Z) : bool := (locb <=? b) && (b <=? hicb).

(** [string(r)] and [strings.Builder.WriteRune]: the UTF-8 encoding of
    [r]; a rune that is out of range or a surrogate is encoded as
    U+FFFD. *)
Definition three (r : Z) : string :=
  String (to_byte (Z.lor t3 (Z.shiftr r 12)))
    (String (to_byte (Z.lor tx (Z.land (Z.shiftr r 6) maskx)))
       (String (to_byte (Z.lor tx (Z.land r maskx))) EmptyString)).

Definition encoderune (r : rune) : string :=
  let i := r mod 2 ^ 32 in
  if i <=? rune1Max then String (to_byte r) EmptyString
  else if i <=? rune2Max then
    String (to_byte (Z.lor t2 (Z.shiftr r 6)))
      (String (to_byte (Z.lor tx (Z.land r maskx))) EmptyString)
  else if (maxRune <? i) || ((surrogateMin <=? i) && (i <=? surrogateMax))
    then three runeError
  else if i <=? rune3Max then three r
  else
    String (to_byte (Z.lor t4 (Z.shiftr r 18)))
      (String (to_byte (Z.lor tx (Z.land (Z.shiftr r 12) maskx)))
         (String (to_byte (Z.lor tx (Z.land (Z.shiftr r 6) maskx)))
            (String (to_byte (Z.lor tx (Z.land r maskx))) EmptyString))).

(** [[]rune(s)]: the runtime walks the bytes as [for range s] does.  An
    ASCII byte is a rune of its own; otherwise a well-formed sequence of
    two to four bytes gives one rune, and anything else gives U+FFFD and
    moves on by one byte. *)
Fixpoint runes (s : string) : list rune :=
  match s with
  | EmptyString => []
  | String a0 s0 =>
    let b0 := byte_val a0 in
    if b0 <? runeSelf then b0 :: runes s0
    else
      match s0 with
      | EmptyString => runeError :: runes s0
      | String a1 s1 =>
        let b1 := byte_val a1 in
        if (t2 <=? b0) && (b0 <? t3) then
          let r := Z.lor (Z.shiftl (Z.land b0 mask2) 6) (Z.land b1 maskx) in
          if cont b1 && (rune1Max <? r) then r :: runes s1
          else runeError :: runes s0
        else
          match s1 with
          | EmptyString => runeError :: runes s0
          | String a2 s2 =>
            let b2 := byte_val a2 in
            if (t3 <=? b0) && (b0 <? t4) then
              let r := Z.lor (Z.shiftl (Z.land b0 mask3) 12)
                         (Z.lor (Z.shiftl (Z.land b1 maskx) 6)
                                (Z.land b2 maskx)) in
              if cont b1 && cont b2 && (rune2Max <? r)
                 && negb ((surrogateMin <=? r) && (r <=? surrogateMax))
              then r :: runes s2
              else runeError :: runes s0
            else
              match s2 with
              | EmptyString => runeError :: runes s0
              | String a3 s3 =>
                let b3 := byte_val a3 in
                if (t4 <=? b0) && (b0 <? t5) then
                  let r := Z.lor (Z.shiftl (Z.land b0 mask4) 18)
                             (Z.lor (Z.shiftl (Z.land b1 maskx) 12)
                                (Z.lor (Z.shiftl (Z.land b2 maskx) 6)
                                       (Z.land b3 maskx))) in
                  if cont b1 && cont b2 && cont b3
                     && (rune3Max <? r) && (r <=? maxRune)
                  then r :: runes s3
                  else runeError :: runes s0
                else runeError :: runes s0
              end
          end
      end
  end.

(** A Unicode scalar value: a code point in range that is not a
    surrogate.  These are the runes that have an encoding of their own. *)
Definition valid (r : rune) : bool :=
  (0 <=? r) && (r <=? maxRune)
  && negb ((surrogateMin <=? r) && (r <=? surrogateMax)).

(** [string(rs)] for a slice of runes, and what a builder holds after a
    [WriteRune] for each of them: the encodings one after the other. *)
Definition encode (rs : list rune) : string :=
  fold_right (fun r s => encoderune r ++ s) "" rs.

(** The bytes of a string, as numbers. *)
Definition bytes (s : string) : list Z :=
  map byte_val (list_ascii_of_string s).

End utf8.

(** ** The libraries the program calls *)

(** [github.com/teacat/noire]: colours.  The program builds one colour
    with [NewHSV], turns hues with [AdjustHue] and prints with [Hex]. *)
Module noire.
Class Lib : Type := {
  Color : Type;
  NewHSV : float64 -> float64 -> float64 -> Color;
  AdjustHue : Color -> float64 -> Color;
  Hex : Color -> string
}.
End noire.

(** [github.com/charmbracelet/lipgloss]: styles.  A [lipgloss.Color] is a
    Go string. *)
Module lipgloss.
Definition Color := string.
Class Lib : Type := {
  Renderer : Type;
  Style : Type;
  NewStyle : Renderer -> Style;
  Foreground : Style -> Color -> Style;
  Render : Style -> string -> string
}.
End lipgloss.

(** [net]: the remote address.  [Addr] is an interface; the value stored
    in it is nil, a [*TCPAddr] (itself possibly a nil pointer) or a value
    of some other type that implements the interface. *)
Module net.
Definition IP := list Byte.byte.
Record TCPAddr : Type := { IP_ : IP; Port : int; Zone : string }.
Class Lib : Type := {
  OtherAddr : Type;
  (* [fmt]'s [%v] of an [IP]: its [String] method *)
  IP_String : IP -> string
}.
Inductive Addr `{Lib} : Type :=
| nilAddr
| ptrTCPAddr (p : option TCPAddr)
| otherAddr (a : OtherAddr).
End net.

(** [github.com/charmbracelet/bubbletea]: messages and commands.  A
    [tea.Msg] is the empty interface; [Update] tells three dynamic types
    apart, every other value is an [OtherMsg]. *)
Module tea.
Record WindowSizeMsg : Type := { Width : int; Height : int }.
Class Lib : Type := {
  KeyMsg : Type;
  KeyMsg_String : KeyMsg -> string;
  OtherMsg : Type
}.
(** The one command the program returns; [nil] is [None]. *)
Inductive Cmd : Type := Quit.
End tea.

(** ** main.go *)

Section Main.
Context `{NL : noire.Lib} `{LL : lipgloss.Lib} `{AL : net.Lib} `{TL : tea.Lib}.

Definition step : float64 := 40%Q.
Definition gradient : float64 := 6%Q.
Definition angle : float64 := 6%Q.

Definition graphic : string := "⠀⠀⠀⠀⠀⠀⠀⠀⠀⠀⠀⠀⠀⠀⣀⠀⠀⠀⠀⠀⠀⠀⠀⠀
⠀⠀⠀⢠⡾⠲⠶⣤⣀⣠⣤⣤⣤⡿⠛⠿⡴⠾⠛⢻⡆⠀⠀⠀  _____      __    ___                        __  
⠀⠀⠀⣼⠁⠀⠀ ⠉⠁⠀⢀⣿⠐⡿⣿⠿⣶⣤⣤⣷⡀⠀⠀⠀/ ___/___  / /_  / _ \ _    __ ___  ___  ___/ /  
⠀⠀⠀⢹⡶⠀⠀⠀⠀⠀⠀⠈⢯⣡⣿⣿⣀⣸⣿⣦⢓⡟⠀⠀/ (_ // -_)/ __/ / ___/| |/|/ // _ \/ -_)/ _  /   
⠀⠀⢀⡿⠀⠀⠀⠀⠀⠀⠀⠀⠀⠀⠀⠈⠉⠹⣍⣭⣾⠁⠀ \___/ \__/ \__/ /_/    |__,__//_//_/\__/ \_,_/⠀
⠀⣀⣸⣇⠀⠀⠀⠀⠀⠀⠀⠀⠀⠀⠀⠀⠀⠀⠀⢀⣸⣷⣤⡀   ___                       
⠈⠉⠹⣏⡁⠀⢸⣿⠀⠀⠀⢀⡀⠀⠀⠀⣿⠆⠀⢀⣸⣇⣀⠀  / _ ) ___  ___ ___ ___      
⠀⠐⠋⢻⣅⣄⢀⣀⣀⡀⠀⠯⠽⠂⢀⣀⣀⡀⠀⣤⣿⠀⠉⠀ / _  |/ _ \/_ //_ // _ \     
⠀⠀⠴⠛⠙⣳⠋⠉⠉⠙⣆⠀⠀⢰⡟⠉⠈⠙⢷⠟⠉⠙⠂⠀/____/ \___//__//__/\___/     
⠀⠀⠀⠀⠀⢻⣄⣠⣤⣴⠟⠛⠛⠛⢧⣤⣤⣀⡾⠁⠀⠀⠀⠀
".

Record model : Type := {
  term : string;
  address : net.Addr;
  width : int;
  height : int;
  tick : uint;
  color : noire.Color;
  style : lipgloss.Style;
  txtStyle : lipgloss.Style;
  quitStyle : lipgloss.Style
}.

Definition tickMsg := uint.

(** The dynamic type of a [tea.Msg], as the type switch of [Update]
    sees it. *)
Inductive Msg : Type :=
| msgWindowSize (msg : tea.WindowSizeMsg)
| msgKey (msg : tea.KeyMsg)
| msgTick (msg : tickMsg)
| msgOther (msg : tea.OtherMsg).

Definition with_size (m : model) (w h : int) : model :=
  {| term := term m; address := address m; width := w; height := h;
     tick := tick m; color := color m; style := style m;
     txtStyle := txtStyle m; quitStyle := quitStyle m |}.

Definition with_tick (m : model) (t : uint) (c : noire.Color) : model :=
  {| term := term m; address := address m; width := width m;
     height := height m; tick := t; color := c; style := style m;
     txtStyle := txtStyle m; quitStyle := quitStyle m |}.

Definition Init (m : model) : option tea.Cmd := None.

Definition Update (m : model) (msg : Msg) : model * option tea.Cmd :=
  match msg with
  | msgWindowSize msg =>
      (with_size m (tea.Width msg) (tea.Height msg), None)
  | msgKey msg =>
      if (tea.KeyMsg_String msg =? "q")%string
         || (tea.KeyMsg_String msg =? "ctrl+c")%string
      then (m, Some tea.Quit)
      else (m, None)
  | msgTick msg =>
      (with_tick m msg (noire.AdjustHue (color m) step), None)
  | msgOther _ => (m, None)
  end.

Definition noireColorToLipglossColor (c : noire.Color) : lipgloss.Color :=
  "#" ++ noire.Hex c.

(** The variables of [lolcat]'s loop. *)
Record cursors : Type := {
  builder : string;
  rowColor : noire.Color;
  charColor : noire.Color
}.

(** One turn of the loop of [lolcat], for the rune [c].  The two
    rotation amounts are arguments; [lolcat] passes the constants. *)
Definition lolcat_body (ang grad : float64) (st : lipgloss.Style)
    (s : cursors) (c : rune) : cursors :=
  if c =? 10 then
    let row := noire.AdjustHue (rowColor s) ang in
    {| builder := builder s ++ utf8.encoderune c;
       rowColor := row;
       charColor := row |}
  else
    {| builder :=
         builder s ++
         lipgloss.Render
           (lipgloss.Foreground st (noireColorToLipglossColor (charColor s)))
           (utf8.encoderune c);
       rowColor := rowColor s;
       charColor := noire.AdjustHue (charColor s) grad |}.

Definition lolcat_start (initialColor : noire.Color) : cursors :=
  {| builder := ""; rowColor := initialColor; charColor := initialColor |}.

Definition lolcat_loop (ang grad : float64) (msg : string)
    (initialColor : noire.Color) (st : lipgloss.Style) : cursors :=
  fold_left (lolcat_body ang grad st) (utf8.runes msg)
    (lolcat_start initialColor).

Definition lolcat (msg : string) (initialColor : noire.Color)
    (st : lipgloss.Style) : string :=
  builder (lolcat_loop angle gradient msg initialColor st).

Definition View (m : model) : outcome string :=
  match address m with
  | net.ptrTCPAddr (Some a) =>
      let msg := "Your IP is " ++ net.IP_String (net.IP_ a) in
      Returns
        ((((lolcat graphic (color m) (style m) ++ newline)
            ++ lipgloss.Render (txtStyle m) msg) ++ newline)
         ++ lipgloss.Render (quitStyle m) ("Press 'q' to quit" ++ newline))
  | net.ptrTCPAddr None => Panics nil_dereference
  | _ => Panics interface_conversion
  end.

(** *** Session start and the event loop *)

(** What [teaHandler] reads from the SSH session: the pty, the remote
    address and the renderer made for the session. *)
Record session : Type := {
  pty_Term : string;
  pty_Width : int;
  pty_Height : int;
  RemoteAddr : net.Addr;
  renderer : lipgloss.Renderer
}.

(** The model [teaHandler] builds; [tick] is left at its zero value. *)
Definition teaHandler (s : session) : model :=
  {| term := pty_Term s;
     address := RemoteAddr s;
     width := pty_Width s;
     height := pty_Height s;
     tick := 0%N;
     color := noire.NewHSV 0%Q 66%Q 100%Q;
     style := lipgloss.NewStyle (renderer s);
     txtStyle := lipgloss.Foreground (lipgloss.NewStyle (renderer s)) "10";
     quitStyle := lipgloss.Foreground (lipgloss.NewStyle (renderer s)) "8" |}.

(** The model after the messages [msgs] went through [Update] in
    order. *)
Definition after (m : model) (msgs : list Msg) : model :=
  fold_left (fun m msg => fst (Update m msg)) msgs m.

(** Tick counts that go up, as the ones the ticker sends. *)
Definition increasing (counts : list tickMsg) : Prop :=
  StronglySorted N.lt counts.

(** The messages one of the three cases of [Update] takes. *)
Definition handled (msg : Msg) : bool :=
  match msg with
  | msgOther _ => false
  | _ => true
  end.

(** *** The renderer as the specification words it

    What is emitted for each code point: a newline as it is, any other
    character with the foreground of the character cursor.  This one is
    written from the specification (section 4.2), to be compared with
    [lolcat]. *)
Inductive emitted : Type :=
| Unstyled (c : rune)
| Styled (fg : noire.Color) (c : rune).

Fixpoint renderRainbow (text : list rune) (row char : noire.Color)
    : list emitted :=
  match text with
  | [] => []
  | c :: rest =>
    if c =? 10 then
      Unstyled c ::
        renderRainbow rest (noire.AdjustHue row 6%Q) (noire.AdjustHue row 6%Q)
    else
      Styled char c :: renderRainbow rest row (noire.AdjustHue char 6%Q)
  end.

(** The text of one emitted character: "convert HSV to hex RGB", then
    the styling primitive. *)
Definition shown (st : lipgloss.Style) (e : emitted) : string :=
  match e with
  | Unstyled c => utf8.encoderune c
  | Styled fg c =>
      lipgloss.Render (lipgloss.Foreground st ("#" ++ noire.Hex fg))
        (utf8.encoderune c)
  end.

(** "Output is the concatenation of all emitted (possibly styled)
    characters". *)
Definition joined (st : lipgloss.Style) (es : list emitted) : string :=
  fold_right (fun e out => shown st e ++ out) "" es.

(** A key that ends the session. *)
Definition quit_key (k : tea.KeyMsg) : Prop :=
  tea.KeyMsg_String k = "q" \/ tea.KeyMsg_String k = "ctrl+c".

(** *** Message sequences *)

(** The colour [c] after [n] calls of [AdjustHue] by [d] degrees. *)
Definition turned (n : nat) (d : float64) (c : noire.Color) : noire.Color :=
  Nat.iter n (fun c => noire.AdjustHue c d) c.

(** The counts of the tick messages among [msgs], in order. *)
Definition tick_counts (msgs : list Msg) : list tickMsg :=
  flat_map (fun msg => match msg with msgTick n => [n] | _ => [] end) msgs.

(** The window sizes among [msgs], in order. *)
Definition resizes (msgs : list Msg) : list tea.WindowSizeMsg :=
  flat_map (fun msg => match msg with msgWindowSize ws => [ws] | _ => [] end)
    msgs.

(** Which case of the type switch of [Update] a message takes (3 for
    none). *)
Definition case_of (msg : Msg) : nat :=
  match msg with
  | msgWindowSize _ => 0
  | msgKey _ => 1
  | msgTick _ => 2
  | msgOther _ => 3
  end.

(** *** The ticker of [newProg]

    The goroutine keeps a [uint] that starts at 0; each turn of its loop
    increments it, with the wrap-around of a [uint] of [bits] bits (32 or
    64, by platform), and sends it as a [tickMsg].  [ticker_loop] is the
    messages sent in the first [n] turns. *)
Fixpoint ticker_loop (bits : N) (tick : uint) (n : nat) : list Msg :=
  match n with
  | O => []
  | S n' =>
    let tick' := ((tick + 1) mod 2 ^ bits)%N in
    msgTick tick' :: ticker_loop bits tick' n'
  end.

Definition ticker (bits : N) (n : nat) : list Msg := ticker_loop bits 0%N n.

(** A text given by its lines: each of [lines] followed by a newline,
    then the characters [row] of the line not yet ended. *)
Definition lines_then (lines : list (list rune)) (row : list rune)
    : list rune :=
  (List.concat (map (fun l => l ++ [10]) lines) ++ row)%list.

(** No newline among the runes. *)
Definition one_line (row : list rune) : Prop := Forall (fun c => c <> 10) row.

End Main.

(** ** The colour library, as the specification describes it *)

Module hsv.

Local Open Scope Q_scope.

(** Modelled from the spec: [noire.Color], whose library is not among
    the sources.  Section 3 has the base colour as an "HSV triple
    (hue in [0,360), saturation, value)". *)
Record Color : Type := { hue : Q; saturation : Q; value : Q }.

(** Modelled from the spec: [noire.NewHSV]; the session starts with
    "an initial color (hue=0, sat=66, value=100)". *)
Definition NewHSV (h s v : float64) : Color :=
  {| hue := h; saturation := s; value := v |}.

(** Modelled from the spec: "wrapping modulo 360", computed by taking
    off the whole turns. *)
Definition wrap360 (x : Q) : Q := x - 360 * inject_Z (Qfloor (x / 360)).

(** Modelled from the spec: [rotate(h, step)], "incrementing the hue
    component of an HSV color by a fixed degree amount, wrapping modulo
    360". *)
Definition rotate (h d : Q) : Q := wrap360 (h + d).

(** Modelled from the spec: [noire.Color.AdjustHue], the hue rotation
    of a colour; saturation and value stay. *)
Definition AdjustHue (c : Color) (degrees : float64) : Color :=
  {| hue := rotate (hue c) degrees;
     saturation := saturation c;
     value := value c |}.

(** Modelled from the spec: the colour library over this colour type,
    for any conversion [hex] to the digits of "#RRGGBB". *)
Definition lib (hex : Color -> string) : noire.Lib :=
  {| noire.Color := Color;
     noire.NewHSV := NewHSV;
     noire.AdjustHue := AdjustHue;
     noire.Hex := hex |}.

(** [r] is [x] modulo 360: the one value of [0, 360) that differs from
    [x] by whole turns. *)
Definition is_mod360 (x r : Q) : Prop :=
  0 <= r /\ r < 360 /\ exists k : Z, x == r + 360 * inject_Z k.

Definition normalized (c : Color) : Prop := 0 <= hue c /\ hue c < 360.

(** Modelled from the spec: a digit of the "#RRGGBB" form that section 6
    gives for [hsvToHex]; the conversion itself is not among the
    sources. *)
Definition hexdigit (n : Z) : ascii :=
  match String.get (Z.to_nat n) "0123456789abcdef" with
  | Some a => a
  | None => "0"%char
  end.

(** Modelled from the spec: one channel of "#RRGGBB", a share of 255
    rounded to the nearest, as two hex digits. *)
Definition channel (x : Q) : string :=
  let n := Qfloor (x * 255 + (1 # 2)) in
  String (hexdigit (n / 16)) (String (hexdigit (n mod 16)) EmptyString).

(** Modelled from the spec: [hsvToHex] without its leading "#", the
    colour conversion that section 6 leaves to a collaborator
    ([noire.Color.Hex] in the program); the usual conversion from HSV to
    RGB, hue in degrees, saturation and value in percent. *)
Definition hsvToHex (c : Color) : string :=
  let s := saturation c / 100 in
  let v := value c / 100 in
  let chroma := v * s in
  let h := hue c / 60 in
  let i := Qfloor h in
  let t := h - 2 * inject_Z (Qfloor (h / 2)) - 1 in
  let x := chroma * (1 - Qabs t) in
  let m := v - chroma in
  let '(r, g, b) :=
    match i with
    | 0%Z => (chroma, x, 0)
    | 1%Z => (x, chroma, 0)
    | 2%Z => (0, chroma, x)
    | 3%Z => (0, x, chroma)
    | 4%Z => (x, 0, chroma)
    | _ => (chroma, 0, x)
    end in
  (channel (r + m) ++ channel (g + m) ++ channel (b + m))%string.

End hsv.

(** ** Small implementations of the other libraries, to run the program on
    concrete sessions

    The results below hold for every implementation of the interfaces;
    these ones only serve to evaluate the program on examples. *)

Module sample.

(** Modelled from the spec: the styling primitive of section 6, which
    "applies a foreground color + text to produce a platform-appropriate
    styled string"; lipgloss is not among the sources.  Here a style is
    its foreground, and rendering puts it in front of the text as a
    tag. *)
Definition lipgloss_lib : lipgloss.Lib :=
  {| lipgloss.Renderer := unit;
     lipgloss.Style := option lipgloss.Color;
     lipgloss.NewStyle := fun _ => None;
     lipgloss.Foreground := fun _ c => Some c;
     lipgloss.Render := fun st s =>
       match st with
       | Some c => "<" ++ c ++ ">" ++ s
       | None => s
       end |}.

(** Modelled from the spec: the "remote IP address extracted from the
    session's network address" (section 4.3), printed as its bytes in
    decimal with dots between; Go's [net] is not among the sources.  An
    address of another type is the path of a Unix socket. *)
Definition net_lib : net.Lib :=
  {| net.OtherAddr := string;
     net.IP_String := fun ip =>
       String.concat "."
         (map (fun b => NilEmpty.string_of_uint (N.to_uint (Byte.to_N b)))
              ip) |}.

(** Modelled from the spec: [KeyPress(key)] of section 3, a key message
    that is the name of its key; bubbletea is not among the sources.  A
    message of another type is a label. *)
Definition tea_lib : tea.Lib :=
  {| tea.KeyMsg := string;
     tea.KeyMsg_String := fun k => k;
     tea.OtherMsg := string |}.

(** Modelled from the spec: the colour library, with the conversion to
    hex above. *)
Definition noire_lib : noire.Lib := hsv.lib hsv.hsvToHex.

#[local] Existing Instances noire_lib lipgloss_lib net_lib tea_lib.

Definition localhost : net.TCPAddr :=
  {| net.IP_ := [Byte.x7f; Byte.x00; Byte.x00; Byte.x01]; net.Port := 50000;
     net.Zone := "" |}.

(** A session over TCP, and one whose peer is a Unix socket. *)
Definition tcp_session : session :=
  {| pty_Term := "xterm"; pty_Width := 80; pty_Height := 24;
     RemoteAddr := net.ptrTCPAddr (Some localhost);
     renderer := (tt : @lipgloss.Renderer lipgloss_lib) |}.

Definition unix_session : session :=
  {| pty_Term := "xterm"; pty_Width := 80; pty_Height := 24;
     RemoteAddr := net.otherAddr "/tmp/peer.sock";
     renderer := (tt : @lipgloss.Renderer lipgloss_lib) |}.

(** The press of the key named [name]. *)
Definition key (name : string) : Msg :=
  msgKey (name : @tea.KeyMsg tea_lib).

(** A message of a type [Update] has no case for. *)
Definition mouse : Msg := msgOther ("mouse" : @tea.OtherMsg tea_lib).

(** A session whose remote address is the nil interface. *)
Definition nil_session : session :=
  {| pty_Term := "xterm"; pty_Width := 80; pty_Height := 24;
     RemoteAddr := net.nilAddr;
     renderer := (tt : @lipgloss.Renderer lipgloss_lib) |}.

(** Modelled from the spec: the styling primitive on a session without
    colours, "tolerant of the session's negotiated color capability
    profile" (section 6): the text comes out as it is. *)
Definition plain_lipgloss_lib : lipgloss.Lib :=
  {| lipgloss.Renderer := unit;
     lipgloss.Style := unit;
     lipgloss.NewStyle := fun _ => tt;
     lipgloss.Foreground := fun st _ => st;
     lipgloss.Render := fun _ s => s |}.

End sample.

(** * Results *)

(** ** Strings *)

Lemma append_assoc (a b c : string) : (a ++ b) ++ c = a ++ (b ++ c).
Proof.
  induction a as [|x a IH]; simpl; [reflexivity|].
  now rewrite IH.
Qed.

Lemma append_empty_r (a : string) : a ++ "" = a.
Proof.
  induction a as [|x a IH]; simpl; [reflexivity|].
  now rewrite IH.
Qed.

(** ["\n"] is one rune, and it is written back as the same byte. *)
Lemma newline_rune :
  utf8.runes newline = [10] /\ utf8.encoderune 10 = newline.
Proof. split; reflexivity. Qed.

(** The banner is 1046 bytes and 566 code points, 10 of them newlines,
    the last one at its end. *)
Example graphic_runes :
  String.length graphic = 1046%nat
  /\ List.length (utf8.runes graphic) = 566%nat
  /\ List.length (filter (Z.eqb 10) (utf8.runes graphic)) = 10%nat
  /\ last (utf8.runes graphic) 0 = 10.
Proof. repeat split; vm_compute; reflexivity. Qed.

(** A Braille cell of the banner is three bytes and one rune. *)
Example runes_braille :
  utf8.runes "⣀a" = [0x28C0; 0x61] /\ utf8.encoderune 0x28C0 = "⣀".
Proof. split; reflexivity. Qed.

(** ** Hue arithmetic on the specification's colour *)

Section Hue.
Import hsv.
Local Open Scope Q_scope.

Lemma floor_bounds (x : Q) :
  360 * inject_Z (Qfloor (x / 360)) <= x
  /\ x < 360 * inject_Z (Qfloor (x / 360)) + 360.
Proof.
  pose proof (Qfloor_le (x / 360)) as Hlo.
  pose proof (Qlt_floor (x / 360)) as Hhi.
  rewrite inject_Z_plus in Hhi.
  assert (Hx : x == 360 * (x / 360)) by (field; discriminate).
  set (y := x / 360) in *.
  set (k := inject_Z (Qfloor y)) in *.
  change (inject_Z 1) with 1 in Hhi.
  split; lra.
Qed.

Lemma wrap360_range (x : Q) : 0 <= wrap360 x /\ wrap360 x < 360.
Proof.
  unfold wrap360. destruct (floor_bounds x) as [Hlo Hhi]. split; lra.
Qed.

Lemma wrap360_is_mod360 (x : Q) : is_mod360 x (wrap360 x).
Proof.
  destruct (wrap360_range x) as [Hlo Hhi].
  repeat split; try assumption.
  exists (Qfloor (x / 360)). unfold wrap360. ring.
Qed.

(** Two integers less than one apart are equal. *)
Lemma whole_turns_equal (j k : Z) (d : Q) :
  -360 < d -> d < 360 -> d == 360 * (inject_Z j - inject_Z k) -> j = k.
Proof.
  intros Hlo Hhi Hd.
  assert (H1 : inject_Z j < inject_Z (k + 1))
    by (rewrite inject_Z_plus; change (inject_Z 1) with 1; lra).
  assert (H2 : inject_Z k < inject_Z (j + 1))
    by (rewrite inject_Z_plus; change (inject_Z 1) with 1; lra).
  rewrite <- Zlt_Qlt in H1, H2. lia.
Qed.

Lemma is_mod360_unique (x r r' : Q) :
  is_mod360 x r -> is_mod360 x r' -> r == r'.
Proof.
  intros (Hlo & Hhi & k & Hk) (Hlo' & Hhi' & k' & Hk').
  assert (E : k' = k).
  { apply (whole_turns_equal k' k (r - r')); lra. }
  subst k'. lra.
Qed.

Lemma wrap360_unique (x r : Q) : is_mod360 x r -> wrap360 x == r.
Proof.
  intro H. apply (is_mod360_unique x); [apply wrap360_is_mod360 | exact H].
Qed.

Lemma is_mod360_comp (x y r : Q) : x == y -> is_mod360 x r -> is_mod360 y r.
Proof.
  intros E (Hlo & Hhi & k & Hk). repeat split; try assumption.
  exists k. lra.
Qed.

(** Rotating an already wrapped hue: the turns add up. *)
Lemma is_mod360_rotate (x r d : Q) :
  is_mod360 x r -> is_mod360 (x + d) (rotate r d).
Proof.
  intros (Hlo & Hhi & k & Hk).
  destruct (wrap360_is_mod360 (r + d)) as (Hlo' & Hhi' & k' & Hk').
  unfold rotate. repeat split; try assumption.
  exists (k' + k)%Z. rewrite inject_Z_plus. lra.
Qed.

End Hue.

(** ** The renderer *)

Section Renderer.
Context `{NL : noire.Lib} `{LL : lipgloss.Lib}.

(** The loop appends to the builder; what it appends from a given state
    is what the specification emits from the same two cursors. *)
Lemma loop_builder (st : lipgloss.Style) (rs : list rune) :
  forall s : cursors,
    builder (fold_left (lolcat_body angle gradient st) rs s)
    = builder s ++ joined st (renderRainbow rs (rowColor s) (charColor s)).
Proof.
  induction rs as [|c rs IH]; intro s; simpl.
  - now rewrite append_empty_r.
  - rewrite IH. unfold lolcat_body.
    destruct (c =? 10); simpl; now rewrite append_assoc.
Qed.

Lemma lolcat_empty (c : noire.Color) (st : lipgloss.Style) :
  lolcat "" c st = "".
Proof. reflexivity. Qed.

(** C2.  [lolcat] walks the code points of the text with two cursors
    that both start at the initial colour: a newline goes out unstyled,
    turns the row cursor by 6 degrees and resets the character cursor to
    it; any other character goes out with the foreground of the
    character cursor, which then turns by 6 degrees.  On the text of
    two newlines the loop emits the two newlines unstyled and leaves
    the row cursor turned twice by the angle, whatever the gradient. *)
Theorem lolcat_two_cursors :
  (forall (msg : string) (c : noire.Color) (st : lipgloss.Style),
      lolcat msg c st = joined st (renderRainbow (utf8.runes msg) c c))
  /\ (forall (grad : float64) (c : noire.Color) (st : lipgloss.Style),
         lolcat_loop angle grad (newline ++ newline) c st
         = {| builder := newline ++ newline;
              rowColor := noire.AdjustHue (noire.AdjustHue c angle) angle;
              charColor := noire.AdjustHue (noire.AdjustHue c angle) angle |})
  /\ (forall c : noire.Color,
         renderRainbow (utf8.runes (newline ++ newline)) c c
         = [Unstyled 10; Unstyled 10]).
Proof.
  split; [|split].
  - intros msg c st. unfold lolcat, lolcat_loop.
    now rewrite loop_builder.
  - reflexivity.
  - reflexivity.
Qed.

End Renderer.

(** ** The model: [Update] and [View] *)

Section Model.
Context `{NL : noire.Lib} `{LL : lipgloss.Lib} `{AL : net.Lib} `{TL : tea.Lib}.

Lemma Update_tick (m : model) (n : tickMsg) :
  Update m (msgTick n)
  = (with_tick m n (noire.AdjustHue (color m) step), None).
Proof. reflexivity. Qed.

(** No message changes the address, the terminal type or the styles. *)
Lemma Update_keeps_session (m : model) (msg : Msg) :
  let m' := fst (Update m msg) in
  address m' = address m /\ term m' = term m /\ style m' = style m
  /\ txtStyle m' = txtStyle m /\ quitStyle m' = quitStyle m.
Proof.
  destruct msg as [ws | k | n | o]; simpl; auto.
  destruct (_ || _); simpl; auto.
Qed.

Lemma after_keeps_address (msgs : list Msg) :
  forall m : model, address (after m msgs) = address m.
Proof.
  induction msgs as [|msg msgs IH]; intro m; [reflexivity|].
  change (address (after (fst (Update m msg)) msgs) = address m).
  rewrite IH. apply (Update_keeps_session m msg).
Qed.

(** [View] returns only on a non-nil [*net.TCPAddr]. *)
Lemma View_returns_iff (m : model) :
  (exists out, View m = Returns out)
  <-> exists a, address m = net.ptrTCPAddr (Some a).
Proof.
  unfold View. split.
  - intros [out H]. destruct (address m) as [|[a|]|o]; try discriminate.
    now exists a.
  - intros [a ->]. eauto.
Qed.

(** C3.  A key press whose key reads "q" or "ctrl+c" returns the quit
    command; any other key press returns no command and the model as it
    was. *)
Theorem key_press (m : model) (k : tea.KeyMsg) :
  (quit_key k -> Update m (msgKey k) = (m, Some tea.Quit))
  /\ (~ quit_key k -> Update m (msgKey k) = (m, None)).
Proof.
  unfold quit_key. simpl.
  destruct (String.eqb_spec (tea.KeyMsg_String k) "q") as [Eq|Nq];
    destruct (String.eqb_spec (tea.KeyMsg_String k) "ctrl+c") as [Ec|Nc];
    simpl; split; intro H; try reflexivity; try tauto.
Qed.

(** C6.  A resize to [(w, h)] sets the width and the height, leaves
    every other field as it was and returns no command. *)
Theorem resize_frame (m : model) (w h : int) :
  let r := Update m (msgWindowSize {| tea.Width := w; tea.Height := h |}) in
  snd r = None
  /\ width (fst r) = w /\ height (fst r) = h
  /\ term (fst r) = term m /\ address (fst r) = address m
  /\ tick (fst r) = tick m /\ color (fst r) = color m
  /\ style (fst r) = style m /\ txtStyle (fst r) = txtStyle m
  /\ quitStyle (fst r) = quitStyle m.
Proof. simpl. repeat split. Qed.

(** C10.  A message of any type but the three of the switch returns
    the model as it was and no command. *)
Theorem unhandled_message (m : model) (msg : Msg) :
  handled msg = false -> Update m msg = (m, None).
Proof.
  destruct msg; simpl; intro H; try discriminate. reflexivity.
Qed.

(** C7, as amended.  When the address of the model holds a non-nil
    [*net.TCPAddr], the view is three sections joined by single newlines:
    the banner through [lolcat] from the current colour, the line with
    the IP address, and a hint in the quit style whose text begins with
    "Press 'q' to quit". *)
Theorem view_three_sections (m : model) (a : net.TCPAddr) :
  address m = net.ptrTCPAddr (Some a) ->
  exists rest : string,
    View m
    = Returns
        (String.concat newline
           [ lolcat graphic (color m) (style m);
             lipgloss.Render (txtStyle m)
               ("Your IP is " ++ net.IP_String (net.IP_ a));
             lipgloss.Render (quitStyle m) ("Press 'q' to quit" ++ rest) ]).
Proof.
  intro Ha. exists newline. unfold View. rewrite Ha.
  cbn [String.concat]. now rewrite !append_assoc.
Qed.

(** C8, as amended.  From the start of a session whose remote address
    is a non-nil [*net.TCPAddr], after any messages, [View] returns a
    string, and [Update] returns a model with the same address for
    every message. *)
Theorem core_returns_over_tcp (s : session) (a : net.TCPAddr)
    (msgs : list Msg) :
  RemoteAddr s = net.ptrTCPAddr (Some a) ->
  (exists out, View (after (teaHandler s) msgs) = Returns out)
  /\ (forall msg, exists m' cmd,
         Update (after (teaHandler s) msgs) msg = (m', cmd)
         /\ address m' = net.ptrTCPAddr (Some a)).
Proof.
  intro Ha.
  assert (E : address (after (teaHandler s) msgs) = net.ptrTCPAddr (Some a))
    by (rewrite after_keeps_address; exact Ha).
  split.
  - apply View_returns_iff. eauto.
  - intro msg.
    destruct (Update (after (teaHandler s) msgs) msg) as [m' cmd] eqn:Eu.
    exists m', cmd. split; [reflexivity|].
    pose proof (Update_keeps_session (after (teaHandler s) msgs) msg) as K.
    rewrite Eu in K. simpl in K. destruct K as [K _]. now rewrite K.
Qed.

End Model.

(** ** Ticks and hues, on the specification's colour *)

Section Ticks.
Import hsv.
Context (hex : hsv.Color -> string).
Context `{LL : lipgloss.Lib} `{AL : net.Lib} `{TL : tea.Lib}.
#[local] Hint Extern 0 noire.Lib => exact (hsv.lib hex) : typeclass_instances.
Local Open Scope Q_scope.

Lemma AdjustHue_normalized (c : hsv.Color) (d : float64) :
  normalized (AdjustHue c d).
Proof. apply wrap360_range. Qed.

Lemma after_tick_cons (m : model) (n : tickMsg) (counts : list tickMsg) :
  after m (map msgTick (n :: counts))
  = after (with_tick m n (AdjustHue (color m) step)) (map msgTick counts).
Proof. reflexivity. Qed.

Lemma after_ticks_hue (counts : list tickMsg) :
  forall (m : model) (x : Q),
    is_mod360 x (hue (color m)) ->
    is_mod360 (x + inject_Z (Z.of_nat (List.length counts)) * 40)
      (hue (color (after m (map msgTick counts)))).
Proof.
  induction counts as [|n counts IH]; intros m x Hx.
  - apply (is_mod360_comp x); [simpl; ring | exact Hx].
  - rewrite after_tick_cons.
    apply (is_mod360_comp
             (x + 40 + inject_Z (Z.of_nat (List.length counts)) * 40)).
    + cbn [List.length]. rewrite Nat2Z.inj_succ.
      unfold Z.succ. rewrite inject_Z_plus. ring.
    + apply IH. cbn [color with_tick]. now apply is_mod360_rotate.
Qed.

Lemma last_cons (counts : list tickMsg) :
  forall n d : tickMsg, last (n :: counts) d = last counts n.
Proof.
  induction counts as [|t counts IH]; intros n d; [reflexivity|].
  change (last (n :: t :: counts) d) with (last (t :: counts) d).
  now rewrite !IH.
Qed.

Lemma after_ticks_tick (counts : list tickMsg) :
  forall m : model,
    tick (after m (map msgTick counts)) = last counts (tick m).
Proof.
  induction counts as [|n counts IH]; intro m; [reflexivity|].
  rewrite after_tick_cons, IH. cbn [tick with_tick].
  now rewrite last_cons.
Qed.

Lemma loop_normalized (st : lipgloss.Style) (rs : list rune) :
  forall s : cursors,
    normalized (rowColor s) -> normalized (charColor s) ->
    normalized (rowColor (fold_left (lolcat_body angle gradient st) rs s))
    /\ normalized
         (charColor (fold_left (lolcat_body angle gradient st) rs s)).
Proof.
  induction rs as [|c rs IH]; intros s Hr Hc; [now split|].
  cbn [fold_left]. apply IH; unfold lolcat_body;
    destruct (c =? 10)%Z; cbn [rowColor charColor];
    try assumption; apply AdjustHue_normalized.
Qed.

(** C1.  A tick carrying [n] sets the tick count to [n] and turns the
    hue of the colour by 40 degrees modulo 360; saturation, value and
    every other field stay, and no command is returned. *)
Theorem tick_rotates_hue (m : model) (n : tickMsg) :
  let r := Update m (msgTick n) in
  snd r = None
  /\ tick (fst r) = n
  /\ hue (color (fst r)) = wrap360 (hue (color m) + 40)
  /\ is_mod360 (hue (color m) + 40) (hue (color (fst r)))
  /\ saturation (color (fst r)) = saturation (color m)
  /\ value (color (fst r)) = value (color m)
  /\ term (fst r) = term m /\ address (fst r) = address m
  /\ width (fst r) = width m /\ height (fst r) = height m
  /\ style (fst r) = style m /\ txtStyle (fst r) = txtStyle m
  /\ quitStyle (fst r) = quitStyle m.
Proof.
  cbn. repeat split. all: apply wrap360_is_mod360.
Qed.

(** C4.  Rotating a hue [h] by [d] gives [(h + d)] modulo 360, and the
    hue is in [0, 360) after every rotation of the program: in a colour
    out of [AdjustHue], in the colour of the model after a tick, in the
    row and character cursors of [lolcat] after each turn of its loop
    and at its end. *)
Theorem hue_in_range_after_rotation :
  (forall h d : Q,
      rotate h d = wrap360 (h + d)
      /\ is_mod360 (h + d) (rotate h d)
      /\ 0 <= rotate h d /\ rotate h d < 360)
  /\ (forall (m : model) (n : tickMsg),
         normalized (color (fst (Update m (msgTick n)))))
  /\ (forall (st : lipgloss.Style) (s : cursors),
         normalized (rowColor (lolcat_body angle gradient st s 10%Z))
         /\ normalized (charColor (lolcat_body angle gradient st s 10%Z)))
  /\ (forall (st : lipgloss.Style) (s : cursors) (c : rune),
         c <> 10%Z ->
         normalized (charColor (lolcat_body angle gradient st s c))
         /\ rowColor (lolcat_body angle gradient st s c) = rowColor s)
  /\ (forall (msg : string) (c : hsv.Color) (st : lipgloss.Style),
         normalized c ->
         normalized (rowColor (lolcat_loop angle gradient msg c st))
         /\ normalized (charColor (lolcat_loop angle gradient msg c st))).
Proof.
  split; [|split; [|split; [|split]]].
  - intros h d. pose proof (wrap360_range (h + d)) as [Hlo Hhi].
    repeat split; try assumption. apply wrap360_is_mod360.
  - intros m n. apply AdjustHue_normalized.
  - intros st s. split; apply AdjustHue_normalized.
  - intros st s c Hc. unfold lolcat_body.
    apply Z.eqb_neq in Hc. rewrite Hc. cbn [rowColor charColor].
    split; [apply AdjustHue_normalized | reflexivity].
  - intros msg c st Hc. apply loop_normalized; exact Hc.
Qed.

(** C5.  After [N] ticks with increasing counts, the hue is the hue at
    the start plus [N * 40] modulo 360, for a start with its hue in
    [0, 360) (or for [N] at least one); the tick count is the last
    count; and from the start of a session, where the hue is 0, three
    ticks give the hue 120. *)
Theorem ticks_advance_hue (m : model) (counts : list tickMsg) :
  increasing counts ->
  normalized (color m) \/ counts <> [] ->
  let N := inject_Z (Z.of_nat (List.length counts)) in
  let m' := after m (map msgTick counts) in
  is_mod360 (hue (color m) + N * step) (hue (color m'))
  /\ hue (color m') == wrap360 (hue (color m) + N * step)
  /\ tick m' = last counts (tick m)
  /\ (forall s : session,
         m = teaHandler s -> List.length counts = 3%nat ->
         hue (color m') == 120).
Proof.
  intros _ Hstart N m'.
  assert (H : is_mod360 (hue (color m) + N * step) (hue (color m'))).
  { destruct Hstart as [[Hlo Hhi] | Hne].
    - apply after_ticks_hue. repeat split; try assumption.
      exists 0%Z. ring.
    - destruct counts as [|n counts]; [congruence|].
      subst N m'. rewrite after_tick_cons.
      apply (is_mod360_comp
               (hue (color m) + 40
                + inject_Z (Z.of_nat (List.length counts)) * 40)).
      + cbn [List.length]. rewrite Nat2Z.inj_succ.
        unfold Z.succ, step. rewrite inject_Z_plus. ring.
      + apply after_ticks_hue. cbn [color with_tick].
        apply wrap360_is_mod360. }
  split; [exact H|]. split; [|split].
  - symmetry. now apply wrap360_unique.
  - apply after_ticks_tick.
  - intros s Hm Hlen.
    apply (is_mod360_unique (hue (color m) + N * step)); [exact H|].
    subst N. rewrite Hlen, Hm. cbn.
    repeat split; try (exists 0%Z); try reflexivity; discriminate.
Qed.

End Ticks.

(** ** The program on concrete sessions *)

Section Runs.
Import sample.
#[local] Existing Instances noire_lib lipgloss_lib net_lib tea_lib.

(** The letter A at hue 120 is rendered with the foreground of
    [hsvToHex (120, 66, 100)]. *)
Example lolcat_A_at_120 :
  lolcat "A" (noire.NewHSV 120%Q 66%Q 100%Q) None = "<#57ff57>A"
  /\ hsv.hsvToHex (hsv.NewHSV 120%Q 66%Q 100%Q) = "57ff57".
Proof. split; reflexivity. Qed.

Lemma key_press_witness :
  (quit_key "q" /\
   Update (teaHandler tcp_session) (msgKey "q")
   = (teaHandler tcp_session, Some tea.Quit))
  /\ (quit_key "ctrl+c" /\
      Update (teaHandler tcp_session) (msgKey "ctrl+c")
      = (teaHandler tcp_session, Some tea.Quit))
  /\ (~ quit_key "x" /\
      Update (teaHandler tcp_session) (msgKey "x")
      = (teaHandler tcp_session, None)).
Proof.
  assert (Hq : quit_key "q") by (left; reflexivity).
  assert (Hc : quit_key "ctrl+c") by (right; reflexivity).
  assert (Hx : ~ quit_key "x") by (intros [H|H]; discriminate H).
  split; [|split]; (split; [assumption|]).
  - exact (proj1 (key_press (teaHandler tcp_session) "q") Hq).
  - exact (proj1 (key_press (teaHandler tcp_session) "ctrl+c") Hc).
  - exact (proj2 (key_press (teaHandler tcp_session) "x") Hx).
Defined.

Lemma unhandled_message_witness :
  handled mouse = false
  /\ Update (teaHandler tcp_session) mouse
     = (teaHandler tcp_session, None).
Proof.
  split; [reflexivity|].
  apply (unhandled_message (teaHandler tcp_session) mouse).
  reflexivity.
Defined.

Lemma view_three_sections_witness :
  address (teaHandler tcp_session) = net.ptrTCPAddr (Some localhost)
  /\ exists rest : string,
       View (teaHandler tcp_session)
       = Returns
           (String.concat newline
              [ lolcat graphic (color (teaHandler tcp_session))
                  (style (teaHandler tcp_session));
                "<10>Your IP is 127.0.0.1";
                "<8>Press 'q' to quit" ++ rest ]).
Proof.
  split; [reflexivity|].
  exact (view_three_sections (teaHandler tcp_session) localhost eq_refl).
Defined.

(** C7 as stated fails, in two ways.  At the start of a session whose
    remote address is nil the view has no output: the type assertion
    panics.  And on a session over TCP the view is not the three
    sections with "Press 'q' to quit" as the text of the styled hint:
    what the quit style is given is the hint with a newline after it. *)
Lemma view_not_three_sections :
  (View (teaHandler nil_session) = Panics interface_conversion
   /\ ~ (exists s1 s2 s3 : string,
            View (teaHandler nil_session)
            = Returns (String.concat newline [s1; s2; s3])))
  /\ View (teaHandler tcp_session)
     <> Returns
          (String.concat newline
             [ lolcat graphic (color (teaHandler tcp_session))
                 (style (teaHandler tcp_session));
               lipgloss.Render (txtStyle (teaHandler tcp_session))
                 ("Your IP is " ++ net.IP_String (net.IP_ localhost));
               lipgloss.Render (quitStyle (teaHandler tcp_session))
                 "Press 'q' to quit" ]).
Proof.
  split; [split; [reflexivity|]|].
  - intros (s1 & s2 & s3 & H). discriminate H.
  - intro H.
    apply (f_equal (fun o => match o with
                             | Returns out => String.length out
                             | Panics _ => 0%nat
                             end)) in H.
    vm_compute in H. discriminate H.
Qed.

Lemma core_returns_over_tcp_witness :
  RemoteAddr tcp_session = net.ptrTCPAddr (Some localhost)
  /\ exists out,
       View (after (teaHandler tcp_session)
               [msgTick 1%N; key "x";
                msgWindowSize {| tea.Width := 100; tea.Height := 30 |}])
       = Returns out.
Proof.
  split; [reflexivity|].
  apply (core_returns_over_tcp tcp_session localhost
           [msgTick 1%N; key "x";
            msgWindowSize {| tea.Width := 100; tea.Height := 30 |}]).
  reflexivity.
Defined.

(** C8 as stated fails: at the start of a session whose peer is not a
    TCP address, the type assertion of [View] panics. *)
Lemma view_panics_on_unix_peer :
  View (teaHandler unix_session) = Panics interface_conversion
  /\ ~ (exists out, View (teaHandler unix_session) = Returns out).
Proof.
  split; [reflexivity|]. intros [out H]. discriminate H.
Qed.

Lemma hue_in_range_after_rotation_witness :
  (65 <> 10 /\
   hsv.normalized
     (charColor
        (lolcat_body angle gradient None
           (lolcat_start (noire.NewHSV 0%Q 66%Q 100%Q)) 65)))
  /\ (hsv.normalized (hsv.NewHSV 354%Q 66%Q 100%Q) /\
      hsv.normalized
        (rowColor
           (lolcat_loop angle gradient graphic
              (noire.NewHSV 354%Q 66%Q 100%Q) None))).
Proof.
  assert (H65 : 65 <> 10) by discriminate.
  assert (Hn : hsv.normalized (hsv.NewHSV 354%Q 66%Q 100%Q))
    by (split; vm_compute; [discriminate | reflexivity]).
  split; (split; [assumption|]).
  - exact (proj1 (proj1 (proj2 (proj2 (proj2
             (hue_in_range_after_rotation hsv.hsvToHex))))
             None (lolcat_start (noire.NewHSV 0%Q 66%Q 100%Q)) 65 H65)).
  - exact (proj1 (proj2 (proj2 (proj2 (proj2
             (hue_in_range_after_rotation hsv.hsvToHex))))
             graphic (hsv.NewHSV 354%Q 66%Q 100%Q) None Hn)).
Defined.

Lemma ticks_advance_hue_witness :
  increasing [1%N; 2%N; 3%N]
  /\ hsv.normalized (color (teaHandler tcp_session))
  /\ (hsv.hue
        (color (after (teaHandler tcp_session)
                  (map msgTick [1%N; 2%N; 3%N]))) == 120)%Q
  /\ tick (after (teaHandler tcp_session) (map msgTick [1%N; 2%N; 3%N]))
     = 3%N.
Proof.
  assert (Hi : increasing [1%N; 2%N; 3%N])
    by (repeat constructor; reflexivity).
  assert (Hn : hsv.normalized (color (teaHandler tcp_session)))
    by (split; vm_compute; [discriminate | reflexivity]).
  pose proof (ticks_advance_hue hsv.hsvToHex (teaHandler tcp_session)
                [1%N; 2%N; 3%N] Hi (or_introl Hn)) as (_ & _ & Ht & H120).
  split; [exact Hi|]. split; [exact Hn|].
  split; [exact (H120 tcp_session eq_refl eq_refl) | exact Ht].
Defined.

End Runs.

(** * Further results *)

(** ** Sequences of messages *)

Section Messages.
Context `{NL : noire.Lib} `{LL : lipgloss.Lib} `{AL : net.Lib} `{TL : tea.Lib}.

Lemma after_app (m : model) (a b : list Msg) :
  after m (a ++ b)%list = after (after m a) b.
Proof. apply fold_left_app. Qed.

Lemma after_snoc (m : model) (msgs : list Msg) (msg : Msg) :
  after m (msgs ++ [msg])%list = fst (Update (after m msgs) msg).
Proof. now rewrite after_app. Qed.

Lemma turned_S (n : nat) (d : float64) (c : noire.Color) :
  turned (S n) d c = noire.AdjustHue (turned n d c) d.
Proof. reflexivity. Qed.

Lemma turned_shift (n : nat) (d : float64) (c : noire.Color) :
  turned n d (noire.AdjustHue c d) = noire.AdjustHue (turned n d c) d.
Proof.
  induction n as [|n IH]; [reflexivity|].
  now rewrite !turned_S, IH.
Qed.

Lemma turned_add (i j : nat) (d : float64) (c : noire.Color) :
  turned j d (turned i d c) = turned (i + j) d c.
Proof.
  induction j as [|j IH]; [now rewrite Nat.add_0_r|].
  now rewrite Nat.add_succ_r, !turned_S, IH.
Qed.

(** What one message does to the colour, the tick count and the size. *)
Lemma Update_fields (m : model) (msg : Msg) :
  color (fst (Update m msg))
  = turned (List.length (tick_counts [msg])) step (color m)
  /\ tick (fst (Update m msg)) = last (tick_counts [msg]) (tick m)
  /\ width (fst (Update m msg))
     = last (map tea.Width (resizes [msg])) (width m)
  /\ height (fst (Update m msg))
     = last (map tea.Height (resizes [msg])) (height m).
Proof.
  destruct msg as [ws | k | n | o]; cbn [Update];
    try destruct (_ || _); repeat split.
Qed.

Lemma tick_counts_app (a b : list Msg) :
  tick_counts (a ++ b)%list = (tick_counts a ++ tick_counts b)%list.
Proof. apply flat_map_app. Qed.

Lemma resizes_app (a b : list Msg) :
  resizes (a ++ b)%list = (resizes a ++ resizes b)%list.
Proof. apply flat_map_app. Qed.

Lemma last_app_default {A : Type} (l l' : list A) (d : A) :
  last (l ++ l')%list d = last l' (last l d).
Proof.
  induction l as [|x l IH]; [reflexivity|].
  destruct l as [|y l].
  - destruct l' as [|z l']; [reflexivity|]. cbn [app].
    change (last (x :: z :: l') d) with (last (z :: l') d).
    clear. revert z. induction l' as [|w l' IH]; intro z; [reflexivity|].
    change (last (z :: w :: l') d) with (last (w :: l') d).
    change (last (z :: w :: l') x) with (last (w :: l') x).
    apply IH.
  - change (last ((x :: y :: l) ++ l') d) with (last ((y :: l) ++ l') d).
    now rewrite IH.
Qed.

Lemma after_color (msgs : list Msg) (m : model) :
  color (after m msgs)
  = turned (List.length (tick_counts msgs)) step (color m).
Proof.
  induction msgs as [|msg msgs IH] using rev_ind; [reflexivity|].
  rewrite after_snoc, tick_counts_app, length_app.
  destruct (Update_fields (after m msgs) msg) as (Hc & _).
  now rewrite Hc, IH, turned_add.
Qed.

Lemma after_tick (msgs : list Msg) (m : model) :
  tick (after m msgs) = last (tick_counts msgs) (tick m).
Proof.
  induction msgs as [|msg msgs IH] using rev_ind; [reflexivity|].
  rewrite after_snoc, tick_counts_app, last_app_default.
  destruct (Update_fields (after m msgs) msg) as (_ & Ht & _).
  now rewrite Ht, IH.
Qed.

Lemma after_size (msgs : list Msg) (m : model) :
  width (after m msgs) = last (map tea.Width (resizes msgs)) (width m)
  /\ height (after m msgs) = last (map tea.Height (resizes msgs)) (height m).
Proof.
  induction msgs as [|msg msgs [IHw IHh]] using rev_ind; [now split|].
  rewrite after_snoc, resizes_app, !map_app, !last_app_default.
  destruct (Update_fields (after m msgs) msg) as (_ & _ & Hw & Hh).
  now rewrite Hw, Hh, IHw, IHh.
Qed.

Lemma after_session (msgs : list Msg) (m : model) :
  term (after m msgs) = term m /\ address (after m msgs) = address m
  /\ style (after m msgs) = style m /\ txtStyle (after m msgs) = txtStyle m
  /\ quitStyle (after m msgs) = quitStyle m.
Proof.
  induction msgs as [|msg msgs (Ht & Ha & Hs & Hx & Hq)] using rev_ind;
    [now repeat split|].
  rewrite after_snoc.
  destruct (Update_keeps_session (after m msgs) msg) as (Ka & Kt & Ks & Kx & Kq).
  repeat split; congruence.
Qed.

(** The view reads the address, the colour and the three styles, and
    nothing else of the model. *)
Lemma View_reads (m1 m2 : model) :
  address m1 = address m2 -> color m1 = color m2 -> style m1 = style m2 ->
  txtStyle m1 = txtStyle m2 -> quitStyle m1 = quitStyle m2 ->
  View m1 = View m2.
Proof.
  intros Ha Hc Hs Hx Hq. unfold View.
  now rewrite Ha, Hc, Hs, Hx, Hq.
Qed.

(** X1.  [Update] returns the quit command for a key press that reads
    "q" or "ctrl+c" and for no other message: a tick, a resize or a
    message of another type never ends the session. *)
Theorem quit_only_on_quit_key (m : model) (msg : Msg) :
  snd (Update m msg) = Some tea.Quit
  <-> exists k, msg = msgKey k /\ quit_key k.
Proof.
  split.
  - destruct msg as [ws | k | n | o]; cbn [Update snd]; try discriminate.
    intro H. exists k. split; [reflexivity|].
    unfold quit_key.
    destruct (String.eqb_spec (tea.KeyMsg_String k) "q") as [Eq|Nq];
      [now left|].
    destruct (String.eqb_spec (tea.KeyMsg_String k) "ctrl+c") as [Ec|Nc];
      [now right|].
    discriminate H.
  - intros (k & -> & [Hk|Hk]); cbn [Update]; rewrite Hk; reflexivity.
Qed.

(** X2.  After any sequence of messages the colour is the colour at the
    start turned by [step] once per tick message, whatever else comes in
    between, and the tick count is the count of the last tick message
    (the one at the start when there was none). *)
Theorem colour_counts_ticks (m : model) (msgs : list Msg) :
  color (after m msgs)
  = turned (List.length (tick_counts msgs)) step (color m)
  /\ tick (after m msgs) = last (tick_counts msgs) (tick m).
Proof. split; [apply after_color | apply after_tick]. Qed.

(** X3.  After any sequence of messages the width and the height are
    those of the last resize message (those at the start when there was
    none). *)
Theorem size_follows_last_resize (m : model) (msgs : list Msg) :
  width (after m msgs) = last (map tea.Width (resizes msgs)) (width m)
  /\ height (after m msgs) = last (map tea.Height (resizes msgs)) (height m).
Proof. apply after_size. Qed.

(** X4.  No sequence of messages changes the terminal type, the remote
    address or any of the three styles. *)
Theorem session_fields_fixed (m : model) (msgs : list Msg) :
  term (after m msgs) = term m /\ address (after m msgs) = address m
  /\ style (after m msgs) = style m /\ txtStyle (after m msgs) = txtStyle m
  /\ quitStyle (after m msgs) = quitStyle m.
Proof. apply after_session. Qed.

(** X5.  Two messages that take different cases of the type switch can
    be handled in either order: the model after both is the same. *)
Theorem different_cases_commute (m : model) (msg1 msg2 : Msg) :
  case_of msg1 <> case_of msg2 ->
  after m [msg1; msg2] = after m [msg2; msg1].
Proof.
  intro Hk. unfold after. cbn [fold_left].
  destruct msg1 as [ws1 | k1 | n1 | o1], msg2 as [ws2 | k2 | n2 | o2];
    cbn [case_of] in Hk; try congruence; cbn [Update fst];
    repeat match goal with
           | |- context [if ?b then _ else _] => destruct b
           end; reflexivity.
Qed.

(** X6.  What is on screen depends on the messages only through the
    number of ticks: after two sequences of messages with as many tick
    messages, the views are the same. *)
Theorem view_counts_ticks (m : model) (a b : list Msg) :
  List.length (tick_counts a) = List.length (tick_counts b) ->
  View (after m a) = View (after m b).
Proof.
  intro H.
  destruct (after_session a m) as (_ & Ha & Hs & Hx & Hq).
  destruct (after_session b m) as (_ & Ha' & Hs' & Hx' & Hq').
  apply View_reads; try congruence.
  now rewrite !after_color, H.
Qed.

(** X7.  [View] panics with a nil dereference exactly when the address
    holds a nil [*net.TCPAddr], and with a failed type assertion exactly
    when the address is nil or of another type; and whether and how it
    panics is the same after any messages as at the start. *)
Theorem view_panics (m : model) :
  (View m = Panics nil_dereference <-> address m = net.ptrTCPAddr None)
  /\ (View m = Panics interface_conversion
      <-> address m = net.nilAddr \/ exists a, address m = net.otherAddr a)
  /\ (forall msgs p, View (after m msgs) = Panics p <-> View m = Panics p).
Proof.
  split; [|split].
  - unfold View. destruct (address m) as [|[a|]|o]; split; intro H;
      try discriminate; reflexivity.
  - unfold View. destruct (address m) as [|[a|]|o]; split; intro H;
      try discriminate; try reflexivity; eauto.
    + destruct H as [H|[a' H]]; discriminate.
    + destruct H as [H|[a' H]]; discriminate.
  - intros msgs p. destruct (after_session msgs m) as (_ & Ha & _).
    unfold View. rewrite Ha.
    destruct (address m) as [|[a|]|o]; split; intro H;
      try discriminate; exact H.
Qed.

End Messages.

(** ** UTF-8: what [[]rune(msg)] reads and [WriteRune] writes *)

Section Runes.
Import utf8.

Lemma byte_val_range (a : ascii) : 0 <= byte_val a < 256.
Proof.
  unfold byte_val. pose proof (N_ascii_bounded a). lia.
Qed.

Lemma byte_val_to_byte (z : Z) : byte_val (to_byte z) = z mod 256.
Proof.
  unfold byte_val, to_byte.
  assert (0 <= z mod 256 < 256) by (apply Z.mod_pos_bound; lia).
  rewrite N_ascii_embedding by lia. lia.
Qed.

Lemma to_byte_byte_val (a : ascii) : to_byte (byte_val a) = a.
Proof.
  unfold to_byte, byte_val. pose proof (N_ascii_bounded a).
  rewrite Z.mod_small by lia. rewrite N2Z.id. apply ascii_N_embedding.
Qed.

(** A number below [2 ^ k] has no bit in common with a multiple of
    [2 ^ k]: their bitwise or is their sum. *)
Lemma lor_high_low (h y k : Z) :
  0 <= k -> 0 <= y < 2 ^ k -> Z.lor (h * 2 ^ k) y = h * 2 ^ k + y.
Proof.
  intros Hk Hy.
  assert (E : Z.land (h * 2 ^ k) y = 0).
  { apply Z.bits_inj'. intros n Hn.
    rewrite Z.land_spec, Z.bits_0.
    destruct (Z.lt_ge_cases n k) as [Hlt|Hge].
    - now rewrite Z.mul_pow2_bits_low.
    - destruct (Z.eq_dec y 0) as [->|Hy0];
        [now rewrite Z.bits_0, andb_false_r|].
      rewrite (Z.bits_above_log2 y n), andb_false_r; try lia.
      apply Z.lt_le_trans with k; [|exact Hge].
      apply Z.log2_lt_pow2; lia. }
  pose proof (Z.add_lor_land (h * 2 ^ k) y). lia.
Qed.

Lemma land_maskx (b : Z) : Z.land b maskx = b mod 64.
Proof. change maskx with (Z.ones 6). now rewrite Z.land_ones by lia. Qed.
Lemma land_mask2 (b : Z) : Z.land b mask2 = b mod 32.
Proof. change mask2 with (Z.ones 5). now rewrite Z.land_ones by lia. Qed.
Lemma land_mask3 (b : Z) : Z.land b mask3 = b mod 16.
Proof. change mask3 with (Z.ones 4). now rewrite Z.land_ones by lia. Qed.
Lemma land_mask4 (b : Z) : Z.land b mask4 = b mod 8.
Proof. change mask4 with (Z.ones 3). now rewrite Z.land_ones by lia. Qed.

Lemma decoded2 (b0 b1 : Z) :
  Z.lor (Z.shiftl (Z.land b0 mask2) 6) (Z.land b1 maskx)
  = b0 mod 32 * 64 + b1 mod 64.
Proof.
  rewrite land_mask2, land_maskx, Z.shiftl_mul_pow2 by lia.
  apply lor_high_low; [lia|]. apply Z.mod_pos_bound. lia.
Qed.

Lemma decoded3 (b0 b1 b2 : Z) :
  Z.lor (Z.shiftl (Z.land b0 mask3) 12)
    (Z.lor (Z.shiftl (Z.land b1 maskx) 6) (Z.land b2 maskx))
  = b0 mod 16 * 4096 + b1 mod 64 * 64 + b2 mod 64.
Proof.
  rewrite land_mask3, !land_maskx, !Z.shiftl_mul_pow2 by lia.
  pose proof (Z.mod_pos_bound b1 64). pose proof (Z.mod_pos_bound b2 64).
  rewrite (lor_high_low (b1 mod 64) (b2 mod 64) 6) by lia.
  rewrite lor_high_low; [|lia|]; change (2 ^ 12) with 4096; change (2 ^ 6) with 64; lia.
Qed.

Lemma decoded4 (b0 b1 b2 b3 : Z) :
  Z.lor (Z.shiftl (Z.land b0 mask4) 18)
    (Z.lor (Z.shiftl (Z.land b1 maskx) 12)
       (Z.lor (Z.shiftl (Z.land b2 maskx) 6) (Z.land b3 maskx)))
  = b0 mod 8 * 262144 + b1 mod 64 * 4096 + b2 mod 64 * 64 + b3 mod 64.
Proof.
  rewrite land_mask4, !land_maskx, !Z.shiftl_mul_pow2 by lia.
  pose proof (Z.mod_pos_bound b1 64). pose proof (Z.mod_pos_bound b2 64).
  pose proof (Z.mod_pos_bound b3 64).
  rewrite (lor_high_low (b2 mod 64) (b3 mod 64) 6) by lia.
  rewrite (lor_high_low (b1 mod 64) _ 12);
    [|lia|change (2 ^ 12) with 4096; change (2 ^ 6) with 64; lia].
  rewrite lor_high_low; [|lia|];
    change (2 ^ 18) with 262144; change (2 ^ 12) with 4096;
    change (2 ^ 6) with 64; lia.
Qed.

Lemma length_append (a b : string) :
  String.length (a ++ b) = (String.length a + String.length b)%nat.
Proof. induction a as [|x a IH]; simpl; [reflexivity|]. now rewrite IH. Qed.

Lemma valid_runeError : valid runeError = true.
Proof. reflexivity. Qed.

(** The first rune of a non-empty string: it takes one to four bytes and
    it is a scalar value. *)
Lemma runes_step (a0 : ascii) (s0 : string) :
  exists (r : rune) (pre rest : string),
    String a0 s0 = pre ++ rest
    /\ (1 <= String.length pre <= 4)%nat
    /\ runes (String a0 s0) = r :: runes rest
    /\ valid r = true.
Proof.
  assert (Herr : forall l, l = runeError :: runes s0 ->
            exists r pre rest, String a0 s0 = pre ++ rest
              /\ (1 <= String.length pre <= 4)%nat
              /\ l = r :: runes rest /\ valid r = true).
  { intros l ->. exists runeError, (String a0 ""), s0.
    repeat split; simpl; lia. }
  pose proof (byte_val_range a0) as R0.
  cbn [runes].
  destruct (byte_val a0 <? runeSelf) eqn:E0.
  { exists (byte_val a0), (String a0 ""), s0.
    apply Z.ltb_lt in E0. unfold runeSelf in E0.
    repeat split; simpl; try lia.
    unfold valid, maxRune, surrogateMin, surrogateMax.
    apply andb_true_intro; split; [apply andb_true_intro; split|];
      try (apply Z.leb_le; lia).
    apply negb_true_iff, andb_false_intro1, Z.leb_gt. lia. }
  destruct s0 as [|a1 s1]; [now apply Herr|].
  destruct ((t2 <=? byte_val a0) && (byte_val a0 <? t3)) eqn:E2.
  { rewrite decoded2.
    destruct (cont (byte_val a1) && _) eqn:C; [|now apply Herr].
    exists (byte_val a0 mod 32 * 64 + byte_val a1 mod 64),
      (String a0 (String a1 "")), s1.
    repeat split; simpl; try lia.
    pose proof (Z.mod_pos_bound (byte_val a0) 32).
    pose proof (Z.mod_pos_bound (byte_val a1) 64).
    unfold valid, maxRune, surrogateMin, surrogateMax.
    apply andb_true_intro; split; [apply andb_true_intro; split|];
      try (apply Z.leb_le; lia).
    apply negb_true_iff, andb_false_intro1, Z.leb_gt. lia. }
  destruct s1 as [|a2 s2]; [now apply Herr|].
  destruct ((t3 <=? byte_val a0) && (byte_val a0 <? t4)) eqn:E3.
  { rewrite decoded3.
    destruct (cont (byte_val a1) && _ && _ && _) eqn:C; [|now apply Herr].
    exists (byte_val a0 mod 16 * 4096 + byte_val a1 mod 64 * 64
            + byte_val a2 mod 64),
      (String a0 (String a1 (String a2 ""))), s2.
    repeat split; simpl; try lia.
    apply andb_true_iff in C. destruct C as [_ C].
    pose proof (Z.mod_pos_bound (byte_val a0) 16).
    pose proof (Z.mod_pos_bound (byte_val a1) 64).
    pose proof (Z.mod_pos_bound (byte_val a2) 64).
    unfold valid, maxRune.
    apply andb_true_intro; split; [apply andb_true_intro; split|];
      try (apply Z.leb_le; lia).
    exact C. }
  destruct s2 as [|a3 s3]; [now apply Herr|].
  destruct ((t4 <=? byte_val a0) && (byte_val a0 <? t5)) eqn:E4;
    [|now apply Herr].
  rewrite decoded4.
  destruct (cont (byte_val a1) && _ && _ && _ && _) eqn:C; [|now apply Herr].
  exists (byte_val a0 mod 8 * 262144 + byte_val a1 mod 64 * 4096
          + byte_val a2 mod 64 * 64 + byte_val a3 mod 64),
    (String a0 (String a1 (String a2 (String a3 "")))), s3.
  repeat split; simpl; try lia.
  apply andb_true_iff in C. destruct C as [C Cmax].
  apply andb_true_iff in C. destruct C as [_ Cmin].
  apply Z.leb_le in Cmax. apply Z.ltb_lt in Cmin.
  unfold rune3Max in Cmin. unfold maxRune in Cmax.
  unfold valid, maxRune, surrogateMin, surrogateMax.
  apply andb_true_intro; split; [apply andb_true_intro; split|];
    try (apply Z.leb_le; lia).
  apply negb_true_iff, andb_false_intro2, Z.leb_gt. lia.
Qed.

Lemma runes_facts (n : nat) :
  forall s : string,
    (String.length s <= n)%nat ->
    Forall (fun r => valid r = true) (runes s)
    /\ (List.length (runes s) <= String.length s)%nat
    /\ (String.length s <= 4 * List.length (runes s))%nat.
Proof.
  induction n as [|n IH]; intros s Hs.
  - destruct s; [|simpl in Hs; lia]. repeat split; simpl; auto.
  - destruct s as [|a0 s0]; [repeat split; simpl; auto; lia|].
    destruct (runes_step a0 s0) as (r & pre & rest & E & Hp & Hr & Hv).
    assert (L : String.length (String a0 s0)
                = (String.length pre + String.length rest)%nat)
      by (rewrite E; apply length_append).
    destruct (IH rest) as (F & Lo & Hi); [lia|].
    rewrite Hr, L. cbn [List.length]. repeat split; [|lia|lia].
    now constructor.
Qed.

Lemma cont_ascii (b : Z) : b < runeSelf -> cont b = false.
Proof.
  unfold cont, locb, runeSelf. intro H.
  apply andb_false_intro1, Z.leb_gt. lia.
Qed.

(** The equation of [runes] on a non-empty string. *)
Lemma runes_unfold (a0 : ascii) (s0 : string) :
  runes (String a0 s0)
  = if byte_val a0 <? runeSelf then byte_val a0 :: runes s0
    else
      match s0 with
      | EmptyString => runeError :: runes s0
      | String a1 s1 =>
        if (t2 <=? byte_val a0) && (byte_val a0 <? t3) then
          if cont (byte_val a1)
             && (rune1Max <?
                 Z.lor (Z.shiftl (Z.land (byte_val a0) mask2) 6)
                   (Z.land (byte_val a1) maskx))
          then Z.lor (Z.shiftl (Z.land (byte_val a0) mask2) 6)
                 (Z.land (byte_val a1) maskx) :: runes s1
          else runeError :: runes s0
        else
          match s1 with
          | EmptyString => runeError :: runes s0
          | String a2 s2 =>
            if (t3 <=? byte_val a0) && (byte_val a0 <? t4) then
              if cont (byte_val a1) && cont (byte_val a2)
                 && (rune2Max <?
                     Z.lor (Z.shiftl (Z.land (byte_val a0) mask3) 12)
                       (Z.lor (Z.shiftl (Z.land (byte_val a1) maskx) 6)
                          (Z.land (byte_val a2) maskx)))
                 && negb
                      ((surrogateMin <=?
                        Z.lor (Z.shiftl (Z.land (byte_val a0) mask3) 12)
                          (Z.lor (Z.shiftl (Z.land (byte_val a1) maskx) 6)
                             (Z.land (byte_val a2) maskx)))
                       && (Z.lor (Z.shiftl (Z.land (byte_val a0) mask3) 12)
                             (Z.lor (Z.shiftl (Z.land (byte_val a1) maskx) 6)
                                (Z.land (byte_val a2) maskx))
                           <=? surrogateMax))
              then Z.lor (Z.shiftl (Z.land (byte_val a0) mask3) 12)
                     (Z.lor (Z.shiftl (Z.land (byte_val a1) maskx) 6)
                        (Z.land (byte_val a2) maskx)) :: runes s2
              else runeError :: runes s0
            else
              match s2 with
              | EmptyString => runeError :: runes s0
              | String a3 s3 =>
                if (t4 <=? byte_val a0) && (byte_val a0 <? t5) then
                  if cont (byte_val a1) && cont (byte_val a2)
                     && cont (byte_val a3)
                     && (rune3Max <?
                         Z.lor (Z.shiftl (Z.land (byte_val a0) mask4) 18)
                           (Z.lor (Z.shiftl (Z.land (byte_val a1) maskx) 12)
                              (Z.lor
                                 (Z.shiftl (Z.land (byte_val a2) maskx) 6)
                                 (Z.land (byte_val a3) maskx))))
                     && (Z.lor (Z.shiftl (Z.land (byte_val a0) mask4) 18)
                           (Z.lor (Z.shiftl (Z.land (byte_val a1) maskx) 12)
                              (Z.lor
                                 (Z.shiftl (Z.land (byte_val a2) maskx) 6)
                                 (Z.land (byte_val a3) maskx)))
                         <=? maxRune)
                  then Z.lor (Z.shiftl (Z.land (byte_val a0) mask4) 18)
                         (Z.lor (Z.shiftl (Z.land (byte_val a1) maskx) 12)
                            (Z.lor (Z.shiftl (Z.land (byte_val a2) maskx) 6)
                               (Z.land (byte_val a3) maskx))) :: runes s3
                  else runeError :: runes s0
                else runeError :: runes s0
              end
          end
      end.
Proof. destruct s0 as [|a1 [|a2 [|a3 s3]]]; reflexivity. Qed.

Ltac split_decoder :=
  repeat first
    [ progress rewrite ?andb_false_r, ?andb_false_l
    | progress cbn [andb app]
    | match goal with
      | |- context [if ?c then _ else _] => destruct c
      | |- context [match ?v with EmptyString => _ | String _ _ => _ end] =>
          is_var v; destruct v
      end ].

(** An ASCII byte ends whatever sequence was open before it: the runes of
    a string followed by one are the runes of the string, then its own. *)
Lemma runes_app_ascii_upto (n : nat) :
  forall (a : string) (x : ascii) (s : string),
    (String.length a <= n)%nat ->
    byte_val x < runeSelf ->
    runes (a ++ String x s) = (runes a ++ runes (String x s))%list.
Proof.
  induction n as [|n IH]; intros a x s Ha Hx.
  - destruct a; [reflexivity | simpl in Ha; lia].
  - pose proof (cont_ascii _ Hx) as Cx.
    destruct a as [|a0 a]; [reflexivity|].
    assert (IH0 : runes (a ++ String x s)
                  = (runes a ++ runes (String x s))%list)
      by (apply IH; [simpl in Ha; lia | exact Hx]).
    cbn [append]. rewrite (runes_unfold a0 (a ++ String x s)).
    rewrite (runes_unfold a0 a).
    destruct a as [|a1 a].
    { cbn [append] in *. change (runes "") with (@nil rune) in *.
      rewrite Cx. split_decoder; reflexivity. }
    assert (IH1 : runes (a ++ String x s)
                  = (runes a ++ runes (String x s))%list)
      by (apply IH; [simpl in Ha; lia | exact Hx]).
    destruct a as [|a2 a].
    { cbn [append] in *. change (runes "") with (@nil rune) in *.
      rewrite Cx, IH0. split_decoder; reflexivity. }
    assert (IH2 : runes (a ++ String x s)
                  = (runes a ++ runes (String x s))%list)
      by (apply IH; [simpl in Ha; lia | exact Hx]).
    destruct a as [|a3 a].
    { cbn [append] in *. change (runes "") with (@nil rune) in *.
      rewrite Cx, IH0, IH1. split_decoder; reflexivity. }
    assert (IH3 : runes (a ++ String x s)
                  = (runes a ++ runes (String x s))%list)
      by (apply IH; [simpl in Ha; lia | exact Hx]).
    cbn [append] in *. rewrite IH0, IH1, IH2, IH3.
    split_decoder; reflexivity.
Qed.

Lemma runes_app_ascii (a : string) (x : ascii) (s : string) :
  byte_val x < runeSelf ->
  runes (a ++ String x s) = (runes a ++ runes (String x s))%list.
Proof. apply (runes_app_ascii_upto (String.length a)). lia. Qed.


Lemma valid_range (r : rune) :
  valid r = true <-> (0 <= r <= 0x10FFFF /\ ~ (0xD800 <= r <= 0xDFFF)).
Proof.
  unfold valid, maxRune, surrogateMin, surrogateMax. split; intro H; lia.
Qed.

Ltac arith := Z.div_mod_to_equations; lia.

Lemma lor_tx (y : Z) : 0 <= y < 64 -> Z.lor tx y = 128 + y.
Proof. intro H. apply (lor_high_low 2 y 6); lia. Qed.

Lemma lor_t2 (y : Z) : 0 <= y < 64 -> Z.lor t2 y = 192 + y.
Proof. intro H. apply (lor_high_low 3 y 6); lia. Qed.

Lemma lor_t3 (y : Z) : 0 <= y < 32 -> Z.lor t3 y = 224 + y.
Proof. intro H. apply (lor_high_low 7 y 5); lia. Qed.

Lemma lor_t4 (y : Z) : 0 <= y < 16 -> Z.lor t4 y = 240 + y.
Proof. intro H. apply (lor_high_low 15 y 4); lia. Qed.

Lemma three_bytes (r : Z) :
  0 <= r < 65536 ->
  three r
  = String (to_byte (224 + r / 4096))
      (String (to_byte (128 + r / 64 mod 64))
         (String (to_byte (128 + r mod 64)) "")).
Proof.
  intro H. unfold three.
  rewrite !land_maskx, !Z.shiftr_div_pow2 by lia.
  change (2 ^ 12) with 4096. change (2 ^ 6) with 64.
  rewrite lor_t3, !lor_tx by arith. reflexivity.
Qed.

(** The bytes of the encoding, by the size of the rune. *)
Lemma encoderune_bytes (r : rune) :
  valid r = true ->
  encoderune r
  = if r <=? 0x7F then String (to_byte r) ""
    else if r <=? 0x7FF then
      String (to_byte (192 + r / 64)) (String (to_byte (128 + r mod 64)) "")
    else if r <=? 0xFFFF then
      String (to_byte (224 + r / 4096))
        (String (to_byte (128 + r / 64 mod 64))
           (String (to_byte (128 + r mod 64)) ""))
    else
      String (to_byte (240 + r / 262144))
        (String (to_byte (128 + r / 4096 mod 64))
           (String (to_byte (128 + r / 64 mod 64))
              (String (to_byte (128 + r mod 64)) ""))).
Proof.
  intro Hv. apply valid_range in Hv. unfold encoderune.
  rewrite (Z.mod_small r (2 ^ 32)) by lia.
  unfold rune1Max, rune2Max, rune3Max, maxRune, surrogateMin, surrogateMax.
  destruct (r <=? 0x7F) eqn:E1; [reflexivity|].
  destruct (r <=? 0x7FF) eqn:E2.
  { rewrite land_maskx, Z.shiftr_div_pow2 by lia. change (2 ^ 6) with 64.
    rewrite lor_t2, lor_tx by arith. reflexivity. }
  destruct ((0x10FFFF <? r) || ((0xD800 <=? r) && (r <=? 0xDFFF))) eqn:E3;
    [lia|].
  destruct (r <=? 0xFFFF) eqn:E4; [apply three_bytes; lia|].
  rewrite !land_maskx, !Z.shiftr_div_pow2 by lia.
  change (2 ^ 18) with 262144. change (2 ^ 12) with 4096.
  change (2 ^ 6) with 64.
  rewrite lor_t4, !lor_tx by arith. reflexivity.
Qed.

(** X10.  A rune that has no encoding of its own, a negative one, a
    surrogate or one above U+10FFFF, is written as the three bytes of
    U+FFFD. *)
Theorem encoderune_invalid (r : rune) :
  - 2 ^ 31 <= r < 2 ^ 31 -> valid r = false ->
  encoderune r = encoderune runeError
  /\ bytes (encoderune r) = [0xEF; 0xBF; 0xBD].
Proof.
  intros Hr Hv.
  assert (E : encoderune r = three runeError).
  { unfold encoderune.
    unfold valid, maxRune, surrogateMin, surrogateMax in Hv.
    unfold rune1Max, rune2Max, rune3Max, maxRune, surrogateMin, surrogateMax.
    destruct (Z.lt_ge_cases r 0) as [Hneg|Hpos].
    - assert (Hm : r mod 2 ^ 32 = r + 2 ^ 32).
      { symmetry. apply Z.mod_unique with (-1); lia. }
      rewrite Hm.
      destruct (r + 2 ^ 32 <=? 0x7F) eqn:E1; [lia|].
      destruct (r + 2 ^ 32 <=? 0x7FF) eqn:E2; [lia|].
      destruct ((0x10FFFF <? r + 2 ^ 32) || _) eqn:E3; [reflexivity|lia].
    - rewrite (Z.mod_small r (2 ^ 32)) by lia.
      destruct (r <=? 0x7F) eqn:E1; [lia|].
      destruct (r <=? 0x7FF) eqn:E2; [lia|].
      destruct ((0x10FFFF <? r) || _) eqn:E3; [reflexivity|lia]. }
  rewrite E. split; reflexivity.
Qed.

Ltac known :=
  match goal with
  | |- context [if ?c then _ else _] =>
      let E := fresh "E" in
      destruct c eqn:E;
      [ try (exfalso; unfold cont, locb, hicb, runeSelf, t2, t3, t4, t5,
               rune1Max, rune2Max, rune3Max, maxRune,
               surrogateMin, surrogateMax in E;
             Z.div_mod_to_equations; lia)
      | try (exfalso; unfold cont, locb, hicb, runeSelf, t2, t3, t4, t5,
               rune1Max, rune2Max, rune3Max, maxRune,
               surrogateMin, surrogateMax in E;
             Z.div_mod_to_equations; lia) ]
  end.

(** Decoding what was encoded gives the rune back, whatever follows. *)
Lemma runes_encoderune (r : rune) (s : string) :
  valid r = true -> runes (encoderune r ++ s) = r :: runes s.
Proof.
  intro Hv. rewrite encoderune_bytes by exact Hv.
  apply valid_range in Hv.
  destruct (r <=? 0x7F) eqn:E1.
  { cbn [append]. rewrite runes_unfold, byte_val_to_byte.
    rewrite (Z.mod_small r 256) by lia. known. reflexivity. }
  destruct (r <=? 0x7FF) eqn:E2.
  { cbn [append]. rewrite runes_unfold, decoded2, !byte_val_to_byte.
    rewrite (Z.mod_small (192 + r / 64) 256) by arith.
    rewrite (Z.mod_small (128 + r mod 64) 256) by arith.
    replace ((192 + r / 64) mod 32 * 64 + (128 + r mod 64) mod 64)
      with r by arith.
    repeat known. reflexivity. }
  destruct (r <=? 0xFFFF) eqn:E3.
  { cbn [append]. rewrite runes_unfold, decoded3, !byte_val_to_byte.
    rewrite (Z.mod_small (224 + r / 4096) 256) by arith.
    rewrite (Z.mod_small (128 + r / 64 mod 64) 256) by arith.
    rewrite (Z.mod_small (128 + r mod 64) 256) by arith.
    replace ((224 + r / 4096) mod 16 * 4096
             + (128 + r / 64 mod 64) mod 64 * 64 + (128 + r mod 64) mod 64)
      with r by arith.
    repeat known. reflexivity. }
  cbn [append]. rewrite runes_unfold, decoded4, !byte_val_to_byte.
  rewrite (Z.mod_small (240 + r / 262144) 256) by arith.
  rewrite (Z.mod_small (128 + r / 4096 mod 64) 256) by arith.
  rewrite (Z.mod_small (128 + r / 64 mod 64) 256) by arith.
  rewrite (Z.mod_small (128 + r mod 64) 256) by arith.
  replace ((240 + r / 262144) mod 8 * 262144
           + (128 + r / 4096 mod 64) mod 64 * 4096
           + (128 + r / 64 mod 64) mod 64 * 64 + (128 + r mod 64) mod 64)
    with r by arith.
  repeat known. reflexivity.
Qed.


End Runes.

Section Texts.
Import utf8.

Lemma runes_encode_app (rs : list rune) (s : string) :
  Forall (fun r => valid r = true) rs ->
  runes (encode rs ++ s) = (rs ++ runes s)%list.
Proof.
  induction 1 as [|r rs Hr Hrs IH]; [reflexivity|].
  cbn [encode fold_right app].
  change (fold_right (fun r s => encoderune r ++ s) "" rs) with (encode rs).
  now rewrite append_assoc, runes_encoderune, IH.
Qed.

Lemma runes_newline (a rest : string) :
  runes (a ++ newline ++ rest) = (runes a ++ 10 :: runes rest)%list.
Proof.
  change (newline ++ rest) with (String (ascii_of_nat 10) rest).
  rewrite runes_app_ascii by (vm_compute; reflexivity).
  reflexivity.
Qed.

(** X8.  Reading back the runes of an encoded text gives the code points
    that were encoded, when each of them is a scalar value, and what
    follows the text is read from its own first byte. *)
Theorem decode_encode (rs : list rune) (s : string) :
  Forall (fun r => valid r = true) rs ->
  runes (encode rs) = rs /\ runes (encode rs ++ s) = (rs ++ runes s)%list.
Proof.
  intro H. split; [|now apply runes_encode_app].
  rewrite <- (append_empty_r (encode rs)), runes_encode_app by exact H.
  apply app_nil_r.
Qed.

(** X9.  Whatever the bytes of a string, the runes read from it are
    scalar values (bytes that are not UTF-8 are read as U+FFFD), there
    are at most as many runes as bytes, and at most four bytes per
    rune. *)
Theorem runes_are_scalar_values (s : string) :
  Forall (fun r => valid r = true) (runes s)
  /\ (List.length (runes s) <= String.length s)%nat
  /\ (String.length s <= 4 * List.length (runes s))%nat.
Proof. apply (runes_facts (String.length s)). lia. Qed.

(** X11.  In a text of ASCII bytes every byte is a rune of its own, and
    writing the runes back gives the text. *)
Theorem ascii_text (s : string) :
  Forall (fun b => b < runeSelf) (bytes s) ->
  runes s = bytes s /\ encode (runes s) = s.
Proof.
  unfold bytes. induction s as [|a s IH]; intro H; [now split|].
  cbn [list_ascii_of_string map] in H |- *.
  inversion H as [|b l Hb Hl]; subst.
  destruct (IH Hl) as [IHr IHe].
  rewrite runes_unfold.
  destruct (byte_val a <? runeSelf) eqn:E; [|lia].
  split; [now rewrite IHr|].
  cbn [encode fold_right].
  change (fold_right (fun r s => encoderune r ++ s) "" (runes s))
    with (encode (runes s)).
  rewrite IHe. unfold encoderune, runeSelf, rune1Max in *.
  pose proof (byte_val_range a).
  rewrite (Z.mod_small (byte_val a) (2 ^ 32)) by lia.
  destruct (byte_val a <=? 127) eqn:E1; [|lia].
  now rewrite to_byte_byte_val.
Qed.

End Texts.

(** ** The renderer, line by line *)

Section Lines.
Context `{NL : noire.Lib} `{LL : lipgloss.Lib}.

(** Along a line the row cursor stays and the character cursor turns once
    per character. *)
Lemma fold_row (ang grad : float64) (st : lipgloss.Style) (row : list rune) :
  forall s : cursors,
    one_line row ->
    rowColor (fold_left (lolcat_body ang grad st) row s) = rowColor s
    /\ charColor (fold_left (lolcat_body ang grad st) row s)
       = turned (List.length row) grad (charColor s).
Proof.
  induction row as [|c row IH]; intros s H; [now split|].
  inversion H as [|c' row' Hc Hrow]; subst.
  cbn [fold_left List.length].
  destruct (IH (lolcat_body ang grad st s c) Hrow) as [IHr IHc].
  rewrite IHr, IHc. unfold lolcat_body.
  apply Z.eqb_neq in Hc. rewrite Hc. cbn [rowColor charColor].
  split; [reflexivity|]. now rewrite turned_shift, turned_S.
Qed.

Lemma fold_lines (ang grad : float64) (st : lipgloss.Style)
    (lines : list (list rune)) (row : list rune) :
  forall s : cursors,
    Forall one_line lines -> one_line row ->
    rowColor (fold_left (lolcat_body ang grad st) (lines_then lines row) s)
    = turned (List.length lines) ang (rowColor s)
    /\ charColor (fold_left (lolcat_body ang grad st) (lines_then lines row) s)
       = turned (List.length row) grad
           (match lines with
            | [] => charColor s
            | _ => turned (List.length lines) ang (rowColor s)
            end).
Proof.
  unfold lines_then.
  induction lines as [|l lines IH]; intros s Hl Hrow.
  - cbn [map List.concat app List.length]. now apply fold_row.
  - inversion Hl as [|l' lines' Hone Hrest]; subst.
    cbn [map List.concat]. rewrite <- !app_assoc.
    rewrite (fold_left_app _ l). cbn [app]. cbn [fold_left].
    destruct (fold_row ang grad st l s Hone) as [Fr Fc].
    set (s1 := fold_left (lolcat_body ang grad st) l s) in *.
    set (s2 := lolcat_body ang grad st s1 10).
    assert (R2 : rowColor s2 = noire.AdjustHue (rowColor s) ang)
      by (unfold s2, lolcat_body; cbn; now rewrite Fr).
    assert (C2 : charColor s2 = noire.AdjustHue (rowColor s) ang)
      by (unfold s2, lolcat_body; cbn; now rewrite Fr).
    destruct (IH s2 Hrest Hrow) as [IHr IHc].
    rewrite IHr, IHc, R2, C2.
    cbn [List.length]. rewrite turned_shift, <- turned_S.
    split; [reflexivity|].
    destruct lines; reflexivity.
Qed.

(** What the loop appends does not depend on what the builder holds. *)
Lemma lolcat_from (st : lipgloss.Style) (rs : list rune) (s : cursors) :
  rowColor s = charColor s ->
  builder (fold_left (lolcat_body angle gradient st) rs s)
  = builder s
    ++ builder (fold_left (lolcat_body angle gradient st) rs
                  (lolcat_start (rowColor s))).
Proof.
  intro E. rewrite !loop_builder. cbn [lolcat_start builder rowColor charColor].
  now rewrite <- E.
Qed.

Lemma lolcat_newline (a rest : string) (c : noire.Color)
    (st : lipgloss.Style) :
  lolcat (a ++ newline ++ rest) c st
  = lolcat a c st ++ newline
    ++ lolcat rest
         (noire.AdjustHue (rowColor (lolcat_loop angle gradient a c st)) angle)
         st.
Proof.
  unfold lolcat, lolcat_loop. rewrite runes_newline, fold_left_app.
  cbn [fold_left].
  set (s1 := fold_left _ (utf8.runes a) _).
  rewrite lolcat_from by reflexivity.
  cbn [lolcat_body Z.eqb Pos.eqb builder rowColor].
  now rewrite append_assoc.
Qed.

(** X12.  After [i] whole lines and [j] characters of the next line, the
    row cursor is the initial colour turned [i] times by [angle] and the
    character cursor is that colour turned [j] times by [gradient]; the
    two amounts being both 6, it is the initial colour turned [i + j]
    times by 6 degrees, and a character put after this text is written
    with the foreground of that colour. *)
Theorem lolcat_colour_at (msg : string) (c : noire.Color)
    (st : lipgloss.Style) (lines : list (list rune)) (row : list rune) :
  utf8.runes msg = lines_then lines row ->
  Forall one_line lines -> one_line row ->
  let s := lolcat_loop angle gradient msg c st in
  rowColor s = turned (List.length lines) angle c
  /\ charColor s
     = turned (List.length row) gradient (turned (List.length lines) angle c)
  /\ charColor s = turned (List.length lines + List.length row) 6%Q c
  /\ (forall (msg' : string) (x : rune),
         x <> 10 -> utf8.runes msg' = (utf8.runes msg ++ [x])%list ->
         lolcat msg' c st
         = lolcat msg c st
           ++ lipgloss.Render
                (lipgloss.Foreground st
                   ("#" ++ noire.Hex
                             (turned (List.length lines + List.length row)
                                6%Q c)))
                (utf8.encoderune x)).
Proof.
  intros Hm Hl Hr s.
  destruct (fold_lines angle gradient st lines row (lolcat_start c) Hl Hr)
    as [Fr Fc].
  rewrite <- Hm in Fr, Fc.
  fold (lolcat_loop angle gradient msg c st) in Fr, Fc. fold s in Fr, Fc.
  cbn [lolcat_start rowColor charColor] in Fr, Fc.
  assert (Fc' : charColor s
                = turned (List.length row) gradient
                    (turned (List.length lines) angle c))
    by (rewrite Fc; destruct lines; reflexivity).
  assert (F6 : charColor s
               = turned (List.length lines + List.length row) 6%Q c)
    by (rewrite Fc'; apply turned_add).
  repeat split; try assumption.
  intros msg' x Hx Hm'. unfold lolcat, lolcat_loop. rewrite Hm'.
  rewrite fold_left_app. cbn [fold_left].
  fold (lolcat_loop angle gradient msg c st). fold s.
  unfold lolcat_body. apply Z.eqb_neq in Hx. rewrite Hx.
  cbn [builder]. unfold noireColorToLipglossColor. now rewrite F6.
Qed.

(** X13.  A text is rendered line by line: what follows a newline is
    rendered as a text of its own, from the row colour reached before the
    newline turned by [angle]; after a first line without a newline that
    is the initial colour turned once. *)
Theorem lolcat_line_by_line (a rest : string) (c : noire.Color)
    (st : lipgloss.Style) :
  lolcat (a ++ newline ++ rest) c st
  = lolcat a c st ++ newline
    ++ lolcat rest
         (noire.AdjustHue (rowColor (lolcat_loop angle gradient a c st)) angle)
         st
  /\ (one_line (utf8.runes a) ->
      lolcat (a ++ newline ++ rest) c st
      = lolcat a c st ++ newline
        ++ lolcat rest (noire.AdjustHue c angle) st).
Proof.
  split; [apply lolcat_newline|].
  intro H. rewrite lolcat_newline.
  destruct (fold_row angle gradient st (utf8.runes a) (lolcat_start c) H)
    as [Fr _].
  unfold lolcat_loop. now rewrite Fr.
Qed.

(** X14.  On a session whose styling writes the text as it is, [lolcat]
    writes the runes of the text back: a text that is the encoding of
    scalar values comes out unchanged. *)
Theorem lolcat_plain (msg : string) (c : noire.Color) (st : lipgloss.Style) :
  (forall (st' : lipgloss.Style) (s : string), lipgloss.Render st' s = s) ->
  lolcat msg c st = utf8.encode (utf8.runes msg)
  /\ (forall rs : list rune,
         Forall (fun r => utf8.valid r = true) rs ->
         msg = utf8.encode rs -> lolcat msg c st = msg).
Proof.
  intro Hid.
  assert (J : forall rs row char,
             joined st (renderRainbow rs row char) = utf8.encode rs).
  { unfold joined, utf8.encode.
    induction rs as [|x rs IH]; intros row char; [reflexivity|].
    cbn [renderRainbow]. destruct (x =? 10); cbn [fold_right shown];
      rewrite ?Hid, IH; reflexivity. }
  assert (E : lolcat msg c st = utf8.encode (utf8.runes msg)).
  { unfold lolcat, lolcat_loop. rewrite loop_builder. apply J. }
  split; [exact E|].
  intros rs Hrs ->. rewrite E.
  rewrite <- (append_empty_r (utf8.encode rs)) at 1.
  rewrite runes_encode_app by exact Hrs.
  change (utf8.runes "") with (@nil rune). now rewrite app_nil_r.
Qed.

End Lines.

(** ** The view and the ticker *)

Section Screen.
Context `{NL : noire.Lib} `{LL : lipgloss.Lib} `{AL : net.Lib} `{TL : tea.Lib}.

Lemma graphic_last_newline :
  graphic = substring 0 1045 graphic ++ newline ++ "".
Proof. vm_compute. reflexivity. Qed.

(** X15.  The banner ends with a newline of its own, which [lolcat]
    writes unstyled: in every view two newlines stand between the last
    row of the banner and the line with the IP address. *)
Theorem view_blank_line (m : model) (a : net.TCPAddr) :
  address m = net.ptrTCPAddr (Some a) ->
  let banner := lolcat (substring 0 1045 graphic) (color m) (style m) in
  lolcat graphic (color m) (style m) = banner ++ newline
  /\ View m
     = Returns
         (banner ++ newline ++ newline
          ++ lipgloss.Render (txtStyle m)
               ("Your IP is " ++ net.IP_String (net.IP_ a))
          ++ newline
          ++ lipgloss.Render (quitStyle m) ("Press 'q' to quit" ++ newline)).
Proof.
  intros Ha banner.
  assert (E : lolcat graphic (color m) (style m) = banner ++ newline).
  { rewrite graphic_last_newline at 1. rewrite lolcat_newline.
    rewrite lolcat_empty. now rewrite append_empty_r. }
  split; [exact E|].
  unfold View. rewrite Ha, E. now rewrite !append_assoc.
Qed.

Lemma ticker_loop_counts (bits : N) (n : nat) :
  forall t : uint,
    tick_counts (ticker_loop bits t n)
    = map (fun k => ((t + N.of_nat k) mod 2 ^ bits)%N) (seq 1 n).
Proof.
  induction n as [|n IH]; intro t; [reflexivity|].
  cbn [ticker_loop]. change (tick_counts (?x :: ?l))
    with (match x with msgTick c => [c] | _ => [] end ++ tick_counts l)%list.
  cbn [app seq map]. rewrite IH. f_equal.
  rewrite <- (seq_shift n 1), map_map. apply map_ext. intro k.
  rewrite N.Div0.add_mod_idemp_l. f_equal. lia.
Qed.

Lemma seq_increasing (n : nat) :
  forall a : nat, StronglySorted N.lt (map N.of_nat (seq a n)).
Proof.
  induction n as [|n IH]; intro a; cbn [seq map]; constructor.
  - apply IH.
  - apply Forall_forall. intros y Hy.
    apply in_map_iff in Hy. destruct Hy as (k & <- & Hk).
    apply in_seq in Hk. lia.
Qed.

Lemma ticker_counts_small (bits : N) (n : nat) :
  (N.of_nat n < 2 ^ bits)%N ->
  tick_counts (ticker bits n) = map N.of_nat (seq 1 n).
Proof.
  intro H. unfold ticker. rewrite ticker_loop_counts.
  apply map_ext_in. intros k Hk. apply in_seq in Hk.
  rewrite N.add_0_l. apply N.mod_small. lia.
Qed.

(** X16.  The [k]-th message of the ticker is a tick that counts [k]
    modulo [2 ^ bits], the first being 1; as long as fewer than
    [2 ^ bits] were sent the counts are 1, 2, 3, ... and go up. *)
Theorem ticker_counts (bits : N) (n : nat) :
  ticker bits n
  = map (fun k => msgTick (N.of_nat k mod 2 ^ bits)%N) (seq 1 n)
  /\ ((N.of_nat n < 2 ^ bits)%N ->
      tick_counts (ticker bits n) = map N.of_nat (seq 1 n)
      /\ increasing (tick_counts (ticker bits n))).
Proof.
  split.
  - unfold ticker.
    assert (G : forall t,
               ticker_loop bits t n
               = map (fun k => msgTick ((t + N.of_nat k) mod 2 ^ bits)%N)
                   (seq 1 n)).
    { induction n as [|n IH]; intro t; [reflexivity|].
      cbn [ticker_loop seq map]. rewrite IH. f_equal.
      rewrite <- (seq_shift n 1), map_map. apply map_ext. intro k.
      rewrite N.Div0.add_mod_idemp_l. do 2 f_equal. lia. }
    rewrite G. apply map_ext. intro k. now rewrite N.add_0_l.
  - intro H. rewrite ticker_counts_small by exact H.
    split; [reflexivity | apply seq_increasing].
Qed.

(** X17.  Whatever comes in between, once the first [n] ticks of the
    ticker went through [Update] ([n] at least one), the tick count of
    the model is [n] modulo [2 ^ bits] and its colour is the colour at
    the start turned [n] times by [step]. *)
Theorem model_follows_ticker (bits : N) (n : nat) (m : model)
    (msgs : list Msg) :
  tick_counts msgs = tick_counts (ticker bits n) ->
  (0 < n)%nat ->
  tick (after m msgs) = (N.of_nat n mod 2 ^ bits)%N
  /\ color (after m msgs) = turned n step (color m).
Proof.
  intros H Hn. rewrite after_tick, after_color, H.
  unfold ticker. rewrite ticker_loop_counts, length_map, length_seq.
  split; [|reflexivity].
  destruct n as [|n]; [lia|].
  rewrite seq_S, map_app. cbn [map]. rewrite last_last.
  rewrite N.add_0_l. reflexivity.
Qed.

End Screen.

(** ** The period of the animation, on the specification's colour *)

Section Period.
Import hsv.
Context (hex : hsv.Color -> string).
Context `{LL : lipgloss.Lib} `{AL : net.Lib} `{TL : tea.Lib}.
#[local] Hint Extern 0 noire.Lib => exact (hsv.lib hex) : typeclass_instances.
Local Open Scope Q_scope.

Lemma turned_hsv (n : nat) (d : float64) (c : hsv.Color) (x : Q) :
  is_mod360 x (hue c) ->
  is_mod360 (x + inject_Z (Z.of_nat n) * d) (hue (turned n d c))
  /\ saturation (turned n d c) = saturation c
  /\ value (turned n d c) = value c.
Proof.
  intro Hx. induction n as [|n (IHh & IHs & IHv)].
  - split; [|split; reflexivity].
    apply (is_mod360_comp x); [simpl; ring | exact Hx].
  - rewrite turned_S. split; [|split; assumption].
    apply (is_mod360_comp (x + inject_Z (Z.of_nat n) * d + d)).
    + rewrite Nat2Z.inj_succ. unfold Z.succ. rewrite inject_Z_plus. ring.
    + now apply is_mod360_rotate.
Qed.

(** X18.  Nine ticks are a whole turn: after messages with a multiple of
    nine ticks among them, a colour whose hue was in [0, 360) has its hue
    back, with the saturation and the value it had. *)
Theorem nine_ticks_period (m : model) (msgs : list Msg) (j : nat) :
  normalized (color m) ->
  List.length (tick_counts msgs) = (9 * j)%nat ->
  hue (color (after m msgs)) == hue (color m)
  /\ saturation (color (after m msgs)) = saturation (color m)
  /\ value (color (after m msgs)) = value (color m).
Proof.
  intros [Hlo Hhi] Hlen. rewrite after_color, Hlen.
  assert (H0 : is_mod360 (hue (color m)) (hue (color m))).
  { repeat split; try assumption. exists 0%Z. ring. }
  destruct (turned_hsv (9 * j) step (color m) _ H0) as (Hh & Hs & Hv).
  split; [|split; assumption].
  apply (is_mod360_unique
           (hue (color m) + inject_Z (Z.of_nat (9 * j)) * step));
    [exact Hh|].
  repeat split; try assumption.
  exists (Z.of_nat j). rewrite Nat2Z.inj_mul, inject_Z_mult.
  unfold step. change (inject_Z (Z.of_nat 9)) with 9. ring.
Qed.

End Period.

(** ** Further runs on concrete sessions *)

Section MoreRuns.
Import sample.
#[local] Existing Instances noire_lib lipgloss_lib net_lib tea_lib.

Lemma different_cases_commute_witness :
  case_of (msgTick 1%N) <> case_of (key "x")
  /\ after (teaHandler tcp_session) [msgTick 1%N; key "x"]
     = after (teaHandler tcp_session) [key "x"; msgTick 1%N].
Proof.
  assert (H : case_of (msgTick 1%N) <> case_of (key "x")) by discriminate.
  split; [exact H|].
  exact (different_cases_commute (teaHandler tcp_session) _ _ H).
Defined.

Lemma view_counts_ticks_witness :
  List.length (tick_counts [msgTick 1%N; key "x"])
  = List.length
      (tick_counts
         [msgWindowSize {| tea.Width := 100; tea.Height := 30 |};
          msgTick 7%N])
  /\ View (after (teaHandler tcp_session) [msgTick 1%N; key "x"])
     = View (after (teaHandler tcp_session)
               [msgWindowSize {| tea.Width := 100; tea.Height := 30 |};
                msgTick 7%N]).
Proof.
  split; [reflexivity|].
  apply (view_counts_ticks (teaHandler tcp_session)). reflexivity.
Defined.

Lemma decode_encode_witness :
  Forall (fun r => utf8.valid r = true) [0x41; 0x28C0; 0x1F600]
  /\ utf8.runes (utf8.encode [0x41; 0x28C0; 0x1F600])
     = [0x41; 0x28C0; 0x1F600].
Proof.
  assert (H : Forall (fun r => utf8.valid r = true) [0x41; 0x28C0; 0x1F600])
    by (repeat constructor).
  split; [exact H|].
  exact (proj1 (decode_encode _ "" H)).
Defined.

Lemma encoderune_invalid_witness :
  (- 2 ^ 31 <= 0xD800 < 2 ^ 31 /\ utf8.valid 0xD800 = false)
  /\ utf8.bytes (utf8.encoderune 0xD800) = [0xEF; 0xBF; 0xBD].
Proof.
  assert (H : - 2 ^ 31 <= 0xD800 < 2 ^ 31) by lia.
  split; [split; [exact H | reflexivity]|].
  exact (proj2 (encoderune_invalid 0xD800 H eq_refl)).
Defined.

Lemma ascii_text_witness :
  Forall (fun b => b < utf8.runeSelf) (utf8.bytes "Your IP")
  /\ utf8.runes "Your IP" = utf8.bytes "Your IP".
Proof.
  assert (H : Forall (fun b => b < utf8.runeSelf) (utf8.bytes "Your IP"))
    by (repeat constructor).
  split; [exact H|].
  exact (proj1 (ascii_text "Your IP" H)).
Defined.

Lemma lolcat_colour_at_witness :
  (utf8.runes ("ab" ++ newline ++ "c") = lines_then [[97; 98]] [99]
   /\ Forall one_line [[97; 98]] /\ one_line [99])
  /\ charColor
       (lolcat_loop angle gradient ("ab" ++ newline ++ "c")
          (noire.NewHSV 0%Q 66%Q 100%Q) None)
     = turned 2 6%Q (noire.NewHSV 0%Q 66%Q 100%Q).
Proof.
  assert (Hm : utf8.runes ("ab" ++ newline ++ "c")
               = lines_then [[97; 98]] [99]) by reflexivity.
  assert (H1 : one_line [99])
    by (repeat (constructor; [discriminate|]); constructor).
  assert (H2 : one_line [97; 98])
    by (repeat (constructor; [discriminate|]); constructor).
  assert (Hl : Forall one_line [[97; 98]])
    by (constructor; [exact H2 | constructor]).
  split; [repeat split; assumption|].
  exact (proj1 (proj2 (proj2
           (lolcat_colour_at _ (noire.NewHSV 0%Q 66%Q 100%Q) None _ _
              Hm Hl H1)))).
Defined.

Lemma lolcat_line_by_line_witness :
  one_line (utf8.runes "ab")
  /\ lolcat ("ab" ++ newline ++ "c") (noire.NewHSV 0%Q 66%Q 100%Q) None
     = lolcat "ab" (noire.NewHSV 0%Q 66%Q 100%Q) None ++ newline
       ++ lolcat "c"
            (noire.AdjustHue (noire.NewHSV 0%Q 66%Q 100%Q) angle) None.
Proof.
  assert (H : one_line (utf8.runes "ab"))
    by (repeat (constructor; [discriminate|]); constructor).
  split; [exact H|].
  exact (proj2 (lolcat_line_by_line "ab" "c" _ None) H).
Defined.

Lemma lolcat_plain_witness :
  (forall (st : @lipgloss.Style plain_lipgloss_lib) (s : string),
      @lipgloss.Render plain_lipgloss_lib st s = s)
  /\ @lolcat noire_lib plain_lipgloss_lib graphic
       (noire.NewHSV 0%Q 66%Q 100%Q) tt
     = graphic.
Proof.
  assert (Hid : forall (st : @lipgloss.Style plain_lipgloss_lib) (s : string),
             @lipgloss.Render plain_lipgloss_lib st s = s)
    by reflexivity.
  split; [exact Hid|].
  apply (proj2 (@lolcat_plain noire_lib plain_lipgloss_lib graphic
                  (noire.NewHSV 0%Q 66%Q 100%Q) tt Hid)
           (utf8.runes graphic)).
  - apply (runes_facts (String.length graphic)). lia.
  - vm_compute. reflexivity.
Defined.

Lemma view_blank_line_witness :
  address (teaHandler tcp_session) = net.ptrTCPAddr (Some localhost)
  /\ lolcat graphic (color (teaHandler tcp_session))
       (style (teaHandler tcp_session))
     = lolcat (substring 0 1045 graphic) (color (teaHandler tcp_session))
         (style (teaHandler tcp_session)) ++ newline.
Proof.
  split; [reflexivity|].
  exact (proj1 (view_blank_line (teaHandler tcp_session) localhost eq_refl)).
Defined.

Lemma ticker_counts_witness :
  (3 < 2 ^ 64)%N
  /\ tick_counts (ticker 64 3) = [1%N; 2%N; 3%N]
  /\ increasing (tick_counts (ticker 64 3)).
Proof.
  assert (H : (N.of_nat 3 < 2 ^ 64)%N) by (vm_compute; reflexivity).
  split; [exact H|].
  exact (proj2 (ticker_counts 64 3) H).
Defined.

Lemma model_follows_ticker_witness :
  (tick_counts
     [msgTick 1%N; key "x"; msgTick 2%N;
      msgWindowSize {| tea.Width := 100; tea.Height := 30 |}; msgTick 3%N]
   = tick_counts (ticker 64 3) /\ (0 < 3)%nat)
  /\ tick (after (teaHandler tcp_session)
             [msgTick 1%N; key "x"; msgTick 2%N;
              msgWindowSize {| tea.Width := 100; tea.Height := 30 |};
              msgTick 3%N])
     = 3%N.
Proof.
  assert (Hn : (0 < 3)%nat) by lia.
  split; [split; [reflexivity | exact Hn]|].
  exact (proj1 (model_follows_ticker 64 3 (teaHandler tcp_session) _
                  eq_refl Hn)).
Defined.

Lemma nine_ticks_period_witness :
  (hsv.normalized (color (teaHandler tcp_session))
   /\ List.length (tick_counts (ticker 64 9)) = (9 * 1)%nat)
  /\ (hsv.hue (color (after (teaHandler tcp_session) (ticker 64 9)))
      == hsv.hue (color (teaHandler tcp_session)))%Q.
Proof.
  assert (Hn : hsv.normalized (color (teaHandler tcp_session)))
    by (split; vm_compute; [discriminate | reflexivity]).
  split; [split; [exact Hn | reflexivity]|].
  exact (proj1 (nine_ticks_period hsv.hsvToHex (teaHandler tcp_session)
                  (ticker 64 9) 1 Hn eq_refl)).
Defined.

End MoreRuns.
